(** * DQuest: SQL statement synthesis and the connection registry

    A shallow embedding of [src/dqsqlstatement.cpp] and
    [src/dqconnection.cpp].  The first half models the text the statement
    builder produces, the second half the connection handles, their shared
    private state, the engines they own and the process-wide mapping from
    model to default connection. *)

From stdpp Require Import gmap strings list fin_maps pretty.
From Stdlib Require Import ZArith Ascii String.

Local Open Scope string_scope.

(** ** QString: place markers and [arg] *)

Module QString.

(** A format string is cut into literal characters and place markers.
    A place marker is [%], an optional [L], and one or two decimal
    digits; [raw] keeps the marker's own text for the markers that a
    call leaves in place. *)
Inductive piece :=
| Lit (c : ascii)
| Marker (n : nat) (raw : string).

Definition digitValue (c : ascii) : option nat :=
  let n := nat_of_ascii c in
  if (48 <=? n)%nat && (n <=? 57)%nat then Some (n - 48)%nat else None.

Definition pct : ascii := "%"%char.
Definition bigL : ascii := "L"%char.

(** After a [%] (and its optional [L]): one digit, or two. *)
Definition digits (s : string) : option (nat * string * string) :=
  match s with
  | String c1 r1 =>
      match digitValue c1 with
      | None => None
      | Some d1 =>
          match r1 with
          | String c2 r2 =>
              match digitValue c2 with
              | Some d2 => Some ((10 * d1 + d2)%nat, String c1 (String c2 ""), r2)
              | None => Some (d1, String c1 "", r1)
              end
          | EmptyString => Some (d1, String c1 "", r1)
          end
      end
  | EmptyString => None
  end.

(** [scan fuel s]: the pieces of [s]; [fuel] bounds the number of
    characters looked at and [String.length s] always suffices. *)
Fixpoint scan (fuel : nat) (s : string) : list piece :=
  match fuel with
  | O => []
  | S fuel =>
      match s with
      | EmptyString => []
      | String c r =>
          if Ascii.eqb c pct then
            let '(pre, r') :=
              match r with
              | String l r1 => if Ascii.eqb l bigL then ("%L", r1) else ("%", r)
              | EmptyString => ("%", r)
              end in
            match digits r' with
            | Some (n, ds, rest) => Marker n (pre +:+ ds) :: scan fuel rest
            | None =>
                if String.eqb pre "%L"
                then Lit pct :: Lit bigL :: scan fuel r'
                else Lit pct :: scan fuel r
            end
          else Lit c :: scan fuel r
      end
  end.

Definition pieces (s : string) : list piece := scan (String.length s) s.

Definition numbers (ps : list piece) : list nat :=
  omap (fun p => match p with Marker n _ => Some n | Lit _ => None end) ps.

Definition lowest (ns : list nat) : option nat :=
  match ns with
  | [] => None
  | n :: ns => Some (foldr Nat.min n ns)
  end.

(** The text of the pieces under a substitution of markers. *)
Fixpoint render (sub : nat -> option string) (ps : list piece) : string :=
  match ps with
  | [] => ""
  | Lit c :: ps => String c (render sub ps)
  | Marker n raw :: ps =>
      match sub n with
      | Some a => a +:+ render sub ps
      | None => raw +:+ render sub ps
      end
  end.

(** [QString::arg(const QString &a)]: every occurrence of the
    lowest-numbered place marker becomes [a]; a string without a marker
    is returned as it is. *)
Definition arg (fmt a : string) : string :=
  let ps := pieces fmt in
  match lowest (numbers ps) with
  | None => fmt
  | Some k => render (fun n => if Nat.eqb n k then Some a else None) ps
  end.

(** The distinct marker numbers, ascending. *)
Fixpoint insert_sorted (n : nat) (l : list nat) : list nat :=
  match l with
  | [] => [n]
  | m :: l' =>
      if (n <? m)%nat then n :: l
      else if Nat.eqb n m then l
      else m :: insert_sorted n l'
  end.

Definition sorted_numbers (ps : list piece) : list nat :=
  foldr insert_sorted [] (numbers ps).

Fixpoint assoc (ks : list nat) (vs : list string) (n : nat) : option string :=
  match ks, vs with
  | k :: ks, v :: vs => if Nat.eqb n k then Some v else assoc ks vs n
  | _, _ => None
  end.

(** [QString::arg(a1, a2, ..)]: the markers are replaced in one pass,
    the lowest number by [a1], the next by [a2], and so on. *)
Definition multiArg (fmt : string) (args : list string) : string :=
  let ps := pieces fmt in
  render (assoc (sorted_numbers ps) args) ps.

(** [QString::arg(int)]: the number in decimal. *)
Definition arg_int (fmt : string) (n : Z) : string := arg fmt (pretty n).

(** [QStringList::join]. *)
Definition join (sep : string) (l : list string) : string := String.concat sep l.

(** [QStringList::indexOf], -1 when absent. *)
Fixpoint indexOf (x : string) (l : list string) : Z :=
  match l with
  | [] => -1
  | y :: l' =>
      if String.eqb y x then 0
      else let i := indexOf x l' in if (i <? 0)%Z then -1 else (i + 1)%Z
  end.

(** [QStringList::removeAt(i)]; nothing happens out of range. *)
Definition removeAt (i : Z) (l : list string) : list string :=
  if (i <? 0)%Z then l else delete (Z.to_nat i) l.

(** [QString::contains]: [sub] occurs somewhere in [s]. *)
Fixpoint contains (sub s : string) : bool :=
  String.prefix sub s ||
  match s with
  | EmptyString => false
  | String _ s' => contains sub s'
  end.

(** A text without the character [%], which therefore holds no place
    marker. *)
Definition plain (s : string) : bool := negb (contains "%" s).

(** The characters of a text, each as a literal piece. *)
Fixpoint lits (s : string) : list piece :=
  match s with
  | EmptyString => []
  | String c s => Lit c :: lits s
  end.

End QString.

(** ** The statement builder (dqsqlstatement.cpp) *)

(** What the builder reads of a [DQModelMetaInfo]. *)
Record DQModelMetaInfo := {
  name : string;
  className : string;
  fieldNameList : list string;
}.

(** What the builder reads of a [DQExpression]: [isNull()] and [string()]. *)
Module DQExpression.
Record t := {
  isNull : bool;
  string : String.string;
}.
End DQExpression.

(** What the builder reads of a [DQQueryRules].  The class is declared in
    a header that is not among the sources; [offset] is taken from the
    accessors the specification lists for the query rules, and no
    function of the builder asks for it. *)
Record DQQueryRules := {
  metaInfo : DQModelMetaInfo;
  fields : list string;
  func : string;
  expression : DQExpression.t;
  limit : Z;
  offset : Z;
}.

Module DQSqlStatement.
Import QString.

Definition dropTable (info : DQModelMetaInfo) : string :=
  arg "drop table %1;" (name info).

(** The loop [foreach (QString f, fields) values << ":" + f]. *)
Fixpoint placeholders (fields : list string) : list string :=
  match fields with
  | [] => []
  | f :: fields => (":" +:+ f) :: placeholders fields
  end.

Definition _insertInto (info : DQModelMetaInfo) (type : string)
    (fields : list string) : string :=
  let format := "%4 INTO %1 (%2) values (%3);" in
  let values := placeholders fields in
  multiArg format [name info; join "," fields; join "," values; type].

Definition insertInto (info : DQModelMetaInfo) (with_id : bool) : string :=
  let fields := fieldNameList info in
  let fields :=
    if negb with_id then
      let idx := indexOf "id" fields in
      if (idx >=? 0)%Z then removeAt idx fields else fields
    else fields in
  _insertInto info "INSERT" fields.

Definition replaceInto (info : DQModelMetaInfo) (with_id : bool) : string :=
  let fields := fieldNameList info in
  let fields :=
    if negb with_id then
      let idx := indexOf "id" fields in
      if (idx >=? 0)%Z then removeAt idx fields else fields
    else fields in
  _insertInto info "REPLACE" fields.

(** The list [fields] that [insertInto] and [replaceInto] hand over to
    [_insertInto]: the column list of the statement. *)
Definition columns (info : DQModelMetaInfo) (with_id : bool) : list string :=
  let fields := fieldNameList info in
  if negb with_id then
    let idx := indexOf "id" fields in
    if (idx >=? 0)%Z then removeAt idx fields else fields
  else fields.

Definition limitAndOffset (limit offset : Z) : string :=
  let res := [arg_int "LIMIT %1" limit] in
  let res :=
    if (offset >? 0)%Z then (res ++ [arg_int "OFFSET %1" offset])%list else res in
  join " " res.

(** Modelled from the spec: the default value of the second parameter of
    [limitAndOffset].  It is declared in dqsqlstatement.h, which is not
    among the sources; the specification gives the signature as
    limitClause(limit, offset=0). *)
Definition default_offset : Z := 0.

(** The call [limitAndOffset(limit)], as [select] and [deleteFrom] write it. *)
Definition limitAndOffset1 (limit : Z) : string := limitAndOffset limit default_offset.

Definition selectResultColumn (rules : DQQueryRules) : string :=
  let fields := fields rules in
  let res := if (List.length fields =? 0)%nat then "*" else join "," fields in
  let func := func rules in
  if negb (String.eqb func "") then arg (arg "%1(%2)" func) res else res.

Definition selectCore (rules : DQQueryRules) : string :=
  let res :=
    [arg (arg (arg "SELECT %1 %2 FROM %3" "ALL") (selectResultColumn rules))
         (name (metaInfo rules))] in
  let expression := expression rules in
  let res :=
    if negb (DQExpression.isNull expression)
    then (res ++ [arg "WHERE %1" (DQExpression.string expression)])%list
    else res in
  join " " res.

Definition select (rules : DQQueryRules) : string :=
  let sql := [selectCore rules] in
  let sql :=
    if (limit rules >? 0)%Z then (sql ++ [limitAndOffset1 (limit rules)])%list else sql in
  let sql := (sql ++ [";"])%list in
  join " " sql.

Definition deleteFrom (rules : DQQueryRules) : string :=
  let sql := [arg "DELETE FROM %1" (name (metaInfo rules))] in
  let expression := expression rules in
  let sql :=
    if negb (DQExpression.isNull expression)
    then (sql ++ [arg "WHERE %1" (DQExpression.string expression)])%list
    else sql in
  let sql :=
    if (limit rules >? 0)%Z then (sql ++ [limitAndOffset1 (limit rules)])%list else sql in
  let sql := (sql ++ [";"])%list in
  join " " sql.

End DQSqlStatement.

(** ** The connection registry (dqconnection.cpp) *)

(** Addresses.  A [DQModelMetaInfo*] is a number, 0 being the null pointer
    (it is the key of the default-connection mapping, and the code stores
    entries under any pointer value it is given); the shared-data pointer
    [d] of a handle and the [DQEngine*] of a private state are [None] when
    null and otherwise name a cell of the store. *)
Definition loc := positive.
Definition metaptr := N.

(** A handle: its shared-data pointer [d].  Copying a handle copies the
    pointer, so all copies alias one [DQConnectionPriv]. *)
Definition DQConnection := option loc.

(** [DQConnection::operator==] compares the two [d] pointers. *)
Definition conn_eqb (a b : DQConnection) : bool := bool_decide (a = b).

(** What the code observes of Qt's database handle and query object. *)
Record QSqlDatabase := {
  db_isOpen : bool;
  connectionName : string;
}.

Record QSqlQuery := {
  q_lastQuery : string;
  q_lastError : string;
}.

(** The default-constructed values [QSqlDatabase()] and [QSqlQuery()]. *)
Definition QSqlDatabase_default : QSqlDatabase :=
  {| db_isOpen := false; connectionName := "" |}.
Definition QSqlQuery_default : QSqlQuery :=
  {| q_lastQuery := ""; q_lastError := "" |}.

(** The [DQSql] sub-object: whether a statement renderer is set, and the
    database handle it works on. *)
Record DQSql := {
  sql_statement : bool;
  sql_database : QSqlDatabase;
}.

Definition DQSql_default : DQSql :=
  {| sql_statement := false; sql_database := QSqlDatabase_default |}.

Record DQConnectionPriv := {
  m_sql : DQSql;
  lastQuery_ : QSqlQuery;
  engine_ : option loc;
}.

(** The two constructors of [DQConnectionPriv]. *)
Definition DQConnectionPriv_new : DQConnectionPriv :=
  {| m_sql := DQSql_default; lastQuery_ := QSqlQuery_default; engine_ := None |}.
Definition DQConnectionPriv_of (val : option loc) : DQConnectionPriv :=
  {| m_sql := DQSql_default; lastQuery_ := QSqlQuery_default; engine_ := val |}.

(** The engine interface.  [DQEngine] is abstract in the sources; a
    connection only calls these five virtual methods and constructs the
    default engine [DQSqliteEngine()]. *)
Class DQEngine (E : Type) := {
  eng_open : QSqlDatabase -> E -> bool * E;
  eng_close : E -> E;
  eng_isOpen : E -> bool;
  eng_addModel : metaptr -> E -> bool * E;
  eng_modelList : E -> list metaptr;
  DQSqliteEngine_new : E;
}.

(** What can go wrong below the level of return values. *)
Inductive fault :=
| NullPointer        (* a null pointer is dereferenced *)
| DanglingPointer    (* a pointer to a destroyed or unknown object is used *)
| AssertionFailed.   (* a Q_ASSERT of a debug build does not hold *)

Inductive result (A : Type) :=
| Ok (a : A)
| Fault (f : fault).
Arguments Ok {A} a.
Arguments Fault {A} f.

Section Connection.
Context {E : Type} `{DQEngine E}.

(** Everything the connection code reads and writes: the private states
    and the engines alive, the static [mapping], the model descriptions
    behind the [DQModelMetaInfo*] values, and what [qWarning()] was
    given.  The reference counts of the shared-data pointers are kept
    by Qt and are not part of this state; the mutex of a private state
    only matters between threads, so locking it is modelled by the
    dereference of [d] it needs. *)
Record World := {
  privs : gmap loc DQConnectionPriv;
  engines : gmap loc E;
  mapping : gmap metaptr DQConnection;
  metaInfos : gmap metaptr DQModelMetaInfo;
  warnings : list string;
}.

Definition set_privs (f : gmap loc DQConnectionPriv -> gmap loc DQConnectionPriv)
    (w : World) : World :=
  {| privs := f (privs w); engines := engines w; mapping := mapping w;
     metaInfos := metaInfos w; warnings := warnings w |}.
Definition set_engines (f : gmap loc E -> gmap loc E) (w : World) : World :=
  {| privs := privs w; engines := f (engines w); mapping := mapping w;
     metaInfos := metaInfos w; warnings := warnings w |}.
Definition set_mapping (f : gmap metaptr DQConnection -> gmap metaptr DQConnection)
    (w : World) : World :=
  {| privs := privs w; engines := engines w; mapping := f (mapping w);
     metaInfos := metaInfos w; warnings := warnings w |}.
Definition add_warning (s : string) (w : World) : World :=
  {| privs := privs w; engines := engines w; mapping := mapping w;
     metaInfos := metaInfos w; warnings := (warnings w ++ [s])%list |}.

(** A computation on the world that returns a value or faults. *)
Definition M (A : Type) : Type := World -> result (A * World).

Definition ret {A} (a : A) : M A := fun w => Ok (a, w).
Definition bind {A B} (c : M A) (k : A -> M B) : M B :=
  fun w => match c w with
           | Ok (a, w') => k a w'
           | Fault f => Fault f
           end.
Definition raise {A} (f : fault) : M A := fun _ => Fault f.

Notation "x <- c ;; k" := (bind c (fun x => k))
  (at level 100, c at next level, right associativity).
Notation "c ;;; k" := (bind c (fun _ => k))
  (at level 100, right associativity).

(** Qt's [foreach (x, l) body]. *)
Fixpoint foreach {A} (l : list A) (body : A -> M unit) : M unit :=
  match l with
  | [] => ret tt
  | x :: l' => body x ;;; foreach l' body
  end.

(** *** The store *)

(** [new DQConnectionPriv()] and [new DQSqliteEngine()]: a cell that is
    not in use. *)
Definition new_priv (p : DQConnectionPriv) : M loc := fun w =>
  let l := fresh (dom (privs w)) in
  Ok (l, set_privs (insert l p) w).

Definition new_engine (e : E) : M loc := fun w =>
  let l := fresh (dom (engines w)) in
  Ok (l, set_engines (insert l e) w).

(** [d->]: the private state behind a handle. *)
Definition deref (this : DQConnection) : M DQConnectionPriv := fun w =>
  match this with
  | None => Fault NullPointer
  | Some l =>
      match privs w !! l with
      | Some p => Ok (p, w)
      | None => Fault DanglingPointer
      end
  end.

(** An assignment to a member through [d->]. *)
Definition update (this : DQConnection) (f : DQConnectionPriv -> DQConnectionPriv)
    : M unit := fun w =>
  match this with
  | None => Fault NullPointer
  | Some l =>
      match privs w !! l with
      | Some p => Ok (tt, set_privs (insert l (f p)) w)
      | None => Fault DanglingPointer
      end
  end.

Definition set_engine_ (v : option loc) (p : DQConnectionPriv) : DQConnectionPriv :=
  {| m_sql := m_sql p; lastQuery_ := lastQuery_ p; engine_ := v |}.
Definition set_lastQuery_ (q : QSqlQuery) (p : DQConnectionPriv) : DQConnectionPriv :=
  {| m_sql := m_sql p; lastQuery_ := q; engine_ := engine_ p |}.
Definition set_statement (b : bool) (p : DQConnectionPriv) : DQConnectionPriv :=
  {| m_sql := {| sql_statement := b; sql_database := sql_database (m_sql p) |};
     lastQuery_ := lastQuery_ p; engine_ := engine_ p |}.
Definition set_database (db : QSqlDatabase) (p : DQConnectionPriv) : DQConnectionPriv :=
  {| m_sql := {| sql_statement := sql_statement (m_sql p); sql_database := db |};
     lastQuery_ := lastQuery_ p; engine_ := engine_ p |}.

(** A virtual call [engine->method(..)] that may change the engine. *)
Definition engine_call {A} (engine : option loc) (method : E -> A * E) : M A := fun w =>
  match engine with
  | None => Fault NullPointer
  | Some l =>
      match engines w !! l with
      | Some e => let '(a, e') := method e in Ok (a, set_engines (insert l e') w)
      | None => Fault DanglingPointer
      end
  end.

(** A virtual call that only reads the engine ([isOpen], [modelList]). *)
Definition engine_get {A} (engine : option loc) (method : E -> A) : M A := fun w =>
  match engine with
  | None => Fault NullPointer
  | Some l =>
      match engines w !! l with
      | Some e => Ok (method e, w)
      | None => Fault DanglingPointer
      end
  end.

(** [delete engine] for a non-null pointer. *)
Definition delete_engine (l : loc) : M unit := fun w =>
  match engines w !! l with
  | Some _ => Ok (tt, set_engines (delete l) w)
  | None => Fault DanglingPointer
  end.

(** [d->mutex.lock()] and [d->mutex.unlock()]. *)
Definition mutex_lock (this : DQConnection) : M unit := deref this ;;; ret tt.
Definition mutex_unlock (this : DQConnection) : M unit := deref this ;;; ret tt.

(** *** The static mapping *)

Definition mapping_contains (metaInfo : metaptr) : M bool := fun w =>
  Ok (bool_decide (is_Some (mapping w !! metaInfo)), w).

(** [mapping.take(key)]: the entry is removed (and returned). *)
Definition mapping_take (metaInfo : metaptr) : M DQConnection := fun w =>
  Ok (default None (mapping w !! metaInfo), set_mapping (delete metaInfo) w).

(** [mapping[key] = value]. *)
Definition mapping_assign (metaInfo : metaptr) (c : DQConnection) : M unit := fun w =>
  Ok (tt, set_mapping (insert metaInfo c) w).

(** Reading [mapping[key]]: a missing key is first entered with a null
    connection. *)
Definition mapping_index (metaInfo : metaptr) : M DQConnection := fun w =>
  match mapping w !! metaInfo with
  | Some c => Ok (c, w)
  | None => Ok (None, set_mapping (insert metaInfo None) w)
  end.

(** [metaInfo->name()]. *)
Definition metaInfo_name (metaInfo : metaptr) : M string := fun w =>
  if (metaInfo =? 0)%N then Fault NullPointer
  else match metaInfos w !! metaInfo with
       | Some info => Ok (name info, w)
       | None => Fault DanglingPointer
       end.

Definition qWarning (s : string) : M unit := fun w => Ok (tt, add_warning s w).

(** A computation that leaves the static mapping as it finds it. *)
Definition keeps_mapping {A} (c : M A) : Prop :=
  forall w a w', c w = Ok (a, w') -> mapping w' = mapping w.

(** *** DQConnection *)

Definition isNull (this : DQConnection) : bool :=
  match this with None => true | Some _ => false end.

Definition isOpen (this : DQConnection) : M bool :=
  if isNull this then ret false
  else
    p <- deref this ;;
    match engine_ p with
    | None => ret false
    | Some _ => engine_get (engine_ p) eng_isOpen
    end.

Definition setEngine (this : DQConnection) (engine : option loc) : M bool :=
  opened <- isOpen this ;;
  if opened then ret false
  else
    mutex_lock this ;;;
    p <- deref this ;;
    match engine_ p with
     | Some old => delete_engine old ;;; update this (set_engine_ None)
     | None => ret tt
     end ;;;
    update this (set_engine_ engine) ;;;
    mutex_unlock this ;;;
    ret true.

(** The macro [PREPARE_PRIV()]; it may assign [d], so the handle comes
    back. *)
Definition PREPARE_PRIV (this : DQConnection) : M DQConnection :=
  this <- (if isNull this
           then l <- new_priv DQConnectionPriv_new ;; ret (Some l)
           else ret this) ;;
  p <- deref this ;;
  match engine_ p with
  | None =>
      e <- new_engine DQSqliteEngine_new ;;
      setEngine this (Some e) ;;;
      ret this
  | Some _ => ret this
  end.

Definition open (this : DQConnection) (db : QSqlDatabase) : M (bool * DQConnection) :=
  (if db_isOpen db then ret tt else raise AssertionFailed) ;;;
  this <- PREPARE_PRIV this ;;
  update this (set_statement true) ;;;
  update this (set_database db) ;;;
  p <- deref this ;;
  engine_call (engine_ p) (eng_open db) ;;;
  ret (true, this).

Definition close (this : DQConnection) : M unit :=
  if isNull this then ret tt
  else
    update this (set_database QSqlDatabase_default) ;;;
    p <- deref this ;;
    engine_call (engine_ p) (fun e => (tt, eng_close e)) ;;;
    p <- deref this ;;
    models <- engine_get (engine_ p) eng_modelList ;;
    foreach models (fun metaInfo =>
      found <- mapping_contains metaInfo ;;
      if found then mapping_take metaInfo ;;; ret tt else ret tt).

Definition addModel (this : DQConnection) (metaInfo : metaptr)
    : M (bool * DQConnection) :=
  let res := false in
  if (metaInfo =? 0)%N then ret (res, this)
  else
    this <- PREPARE_PRIV this ;;
    p <- deref this ;;
    res <- engine_call (engine_ p) (eng_addModel metaInfo) ;;
    found <- mapping_contains metaInfo ;;
    (if res && negb found then mapping_assign metaInfo this else ret tt) ;;;
    ret (res, this).

Definition defaultConnection (metaInfo : metaptr) : M DQConnection :=
  let ret_ : DQConnection := None in
  if (metaInfo =? 0)%N then ret ret_
  else
    found <- mapping_contains metaInfo ;;
    if found then mapping_index metaInfo
    else
      n <- metaInfo_name metaInfo ;;
      qWarning (QString.arg "Model %1 is not added to any connection yet" n) ;;;
      ret ret_.

Definition setDefaultConnection (this : DQConnection) (metaInfo : metaptr) : M unit :=
  mapping_assign metaInfo this.

Definition setLastQuery (this : DQConnection) (query : QSqlQuery) : M unit :=
  opened <- isOpen this ;;
  if negb opened then ret tt
  else
    mutex_lock this ;;;
    update this (set_lastQuery_ query) ;;;
    mutex_unlock this.

Definition lastQuery (this : DQConnection) : M QSqlQuery :=
  opened <- isOpen this ;;
  if negb opened then ret QSqlQuery_default
  else
    mutex_lock this ;;;
    p <- deref this ;;
    let query := lastQuery_ p in
    mutex_unlock this ;;;
    ret query.

Definition engine (this : DQConnection) : M (option loc) :=
  mutex_lock this ;;;
  p <- deref this ;;
  let res := engine_ p in
  mutex_unlock this ;;;
  ret res.

End Connection.

(** ** Concrete instances *)

Module StatementExamples.
Import QString DQSqlStatement.

Definition User : DQModelMetaInfo :=
  {| name := "User"; className := "User"; fieldNameList := ["id"; "name"] |}.

Definition noFilter : DQExpression.t :=
  {| DQExpression.isNull := true; DQExpression.string := "" |}.

Definition all (l o : Z) : DQQueryRules :=
  {| metaInfo := User; fields := []; func := ""; expression := noFilter;
     limit := l; offset := o |}.

Definition olderThan30 : DQExpression.t :=
  {| DQExpression.isNull := false; DQExpression.string := "age > 30" |}.

(** Count the users older than 30, three at most. *)
Definition counted : DQQueryRules :=
  {| metaInfo := User; fields := ["id"; "name"]; func := "count";
     expression := olderThan30; limit := 3; offset := 0 |}.

(** A model without an [id] field, and one with nothing but two of them. *)
Definition Tag : DQModelMetaInfo :=
  {| name := "Tag"; className := "Tag"; fieldNameList := ["label"] |}.
Definition Twice : DQModelMetaInfo :=
  {| name := "Twice"; className := "Twice"; fieldNameList := ["id"; "x"; "id"] |}.
Definition Bare : DQModelMetaInfo :=
  {| name := "Bare"; className := "Bare"; fieldNameList := ["id"] |}.

End StatementExamples.


(** Modelled from the spec: the default engine [DQSqliteEngine]; its class
    (priv/dqsqliteengine.h) is not among the sources.  Following the
    specification, an engine owns zero or one open physical connection and
    the set of model types bound to it through [addModel]; closing it
    releases the connection and does not forget the bound models. *)
Module SqliteEngine.

Record t := {
  db : option QSqlDatabase;
  models : list metaptr;
}.

Definition open (d : QSqlDatabase) (e : t) : bool * t :=
  (true, {| db := Some d; models := models e |}).
Definition close (e : t) : t := {| db := None; models := models e |}.
Definition isOpen (e : t) : bool :=
  match db e with Some _ => true | None => false end.
Definition addModel (m : metaptr) (e : t) : bool * t :=
  if bool_decide (m ∈ models e) then (false, e)
  else (true, {| db := db e; models := (models e ++ [m])%list |}).
Definition modelList (e : t) : list metaptr := models e.
Definition new : t := {| db := None; models := [] |}.

#[global] Instance engine : DQEngine t := {
  eng_open := open;
  eng_close := close;
  eng_isOpen := isOpen;
  eng_addModel := addModel;
  eng_modelList := modelList;
  DQSqliteEngine_new := new;
}.

End SqliteEngine.

Module ConnectionExamples.

Definition User : metaptr := 1%N.

(** The state of a program that has touched nothing yet. *)
Definition start : World (E := SqliteEngine.t) :=
  {| privs := ∅; engines := ∅; mapping := ∅;
     metaInfos := {[ User := StatementExamples.User ]}; warnings := [] |}.

Definition liveDb : QSqlDatabase := {| db_isOpen := true; connectionName := "main" |}.

Definition world_of {A} (r : result (A * World (E := SqliteEngine.t))) : World :=
  match r with Ok (_, w) => w | Fault _ => start end.

(** Two connections [A] and [B], both made by binding [User] on a
    null handle: first [A], then [B]. *)
Definition A : DQConnection := Some 1%positive.
Definition B : DQConnection := Some 2%positive.
Definition w_A : World := world_of (addModel None User start).
Definition w_AB : World := world_of (addModel None User w_A).

(** A connection that was opened, recorded a query and was closed. *)
Definition someQuery : QSqlQuery :=
  {| q_lastQuery := "SELECT ALL * FROM User ;"; q_lastError := "" |}.
Definition w_opened : World := world_of (open None liveDb start).
Definition w_queried : World := world_of (setLastQuery A someQuery w_opened).
Definition w_closed : World := world_of (close A w_queried).

(** The private state of [A] and the engine of [A] (and of [B]) once
    [User] is bound. *)
Definition priv1 : DQConnectionPriv := DQConnectionPriv_of (Some 1%positive).
Definition boundEngine : SqliteEngine.t :=
  {| SqliteEngine.db := None; SqliteEngine.models := [User] |}.

(** An engine made by the application, before it is handed to a
    connection. *)
Definition w_engine : World := world_of (new_engine SqliteEngine.new start).

End ConnectionExamples.

(** * Properties of the statement builder *)

#[local] Arguments String.append !s1 s2 : simpl nomatch.

Section StringFacts.

Lemma append_nil_r (s : string) : s +:+ "" = s.
Proof. induction s as [|c s IH]; [reflexivity | cbn; f_equal; exact IH]. Qed.

Lemma append_assoc (a b c : string) : (a +:+ b) +:+ c = a +:+ (b +:+ c).
Proof. induction a as [|x a IH]; [reflexivity | cbn; f_equal; exact IH]. Qed.

End StringFacts.

Module QStringFacts.
Import QString.

Lemma digits_text (s : string) n ds rest :
  digits s = Some (n, ds, rest) ->
  s = ds +:+ rest /\ (String.length rest < String.length s)%nat.
Proof.
  unfold digits. destruct s as [| c1 r1]; [discriminate |].
  destruct (digitValue c1) as [d1 |]; [| discriminate].
  destruct r1 as [| c2 r2].
  - intros [= <- <- <-]. cbn. split; [reflexivity | lia].
  - destruct (digitValue c2) as [d2 |]; intros [= <- <- <-]; cbn;
      (split; [reflexivity | lia]).
Qed.

(** The fuel of [pieces] is enough: left alone, the pieces of a string
    spell the string. *)
Lemma scan_text (fuel : nat) (s : string) :
  (String.length s <= fuel)%nat -> render (fun _ => None) (scan fuel s) = s.
Proof.
  revert s. induction fuel as [| fuel IH]; intros s Hlen.
  - destruct s; [reflexivity | cbn in Hlen; lia].
  - destruct s as [| c r]; [reflexivity |]. cbn [scan]. cbn in Hlen.
    destruct (Ascii.eqb_spec c pct) as [-> | Hc];
      [| cbn [render]; rewrite IH by lia; reflexivity].
    destruct r as [| l r1]; [destruct fuel; reflexivity |].
    cbn in Hlen.
    destruct (Ascii.eqb_spec l bigL) as [-> | Hl].
    + destruct (digits r1) as [[[n ds] rest] |] eqn:Hd.
      * apply digits_text in Hd as [-> Hlt].
        cbn [render]. rewrite IH by lia. reflexivity.
      * cbn. rewrite IH by lia. reflexivity.
    + destruct (digits (String l r1)) as [[[n ds] rest] |] eqn:Hd.
      * apply digits_text in Hd as [Heq Hlt]. cbn in Hlt.
        cbn [render]. rewrite IH by lia. cbn. now rewrite <- Heq.
      * cbn. rewrite IH by (cbn; lia). reflexivity.
Qed.

Lemma pieces_text (s : string) : render (fun _ => None) (pieces s) = s.
Proof. apply scan_text. reflexivity. Qed.

End QStringFacts.

Module StatementFacts.
Import QString DQSqlStatement StatementExamples.

(** Formats are closed strings: their pieces are computed once, and the
    rendering is then unfolded around the arguments. *)
Ltac eval_pieces :=
  repeat match goal with
  | |- context [pieces ?f] =>
      let v := eval vm_compute in (pieces f) in
      change (pieces f) with v
  end.

Ltac arg_text :=
  unfold arg_int, arg, multiArg; eval_pieces;
  cbn [lowest numbers sorted_numbers omap foldr insert_sorted assoc render
       Nat.min Nat.eqb Nat.ltb Nat.leb mbind option_bind];
  cbn; rewrite ?append_nil_r.

(** The text of [arg] and [multiArg] on the formats the builder uses. *)
Lemma limit_text (n : Z) : arg_int "LIMIT %1" n = "LIMIT " +:+ pretty n.
Proof. arg_text. reflexivity. Qed.

Lemma offset_text (n : Z) : arg_int "OFFSET %1" n = "OFFSET " +:+ pretty n.
Proof. arg_text. reflexivity. Qed.

Lemma where_text (e : string) : arg "WHERE %1" e = "WHERE " +:+ e.
Proof. arg_text. reflexivity. Qed.

Lemma _insertInto_text (info : DQModelMetaInfo) (type : string) (fields : list string) :
  _insertInto info type fields =
    type +:+ " INTO " +:+ name info +:+ " (" +:+ join "," fields
         +:+ ") values (" +:+ join "," (placeholders fields) +:+ ");".
Proof. unfold _insertInto. arg_text. reflexivity. Qed.

Lemma insertInto_columns (info : DQModelMetaInfo) (with_id : bool) :
  insertInto info with_id = _insertInto info "INSERT" (columns info with_id).
Proof. reflexivity. Qed.

Lemma replaceInto_columns (info : DQModelMetaInfo) (with_id : bool) :
  replaceInto info with_id = _insertInto info "REPLACE" (columns info with_id).
Proof. reflexivity. Qed.

Lemma limitAndOffset_no_offset (l o : Z) :
  (o <= 0)%Z -> limitAndOffset l o = "LIMIT " +:+ pretty l.
Proof.
  intros Ho. unfold limitAndOffset.
  destruct (Z.gtb_spec o 0) as [Hgt | _]; [lia |].
  cbn [join String.concat]. apply limit_text.
Qed.

Lemma limitAndOffset_offset (l o : Z) :
  (0 < o)%Z -> limitAndOffset l o = "LIMIT " +:+ pretty l +:+ " OFFSET " +:+ pretty o.
Proof.
  intros Ho. unfold limitAndOffset.
  destruct (Z.gtb_spec o 0) as [_ | Hle]; [| lia].
  cbn [join String.concat app]. now rewrite limit_text, offset_text.
Qed.

Lemma select_limited (rules : DQQueryRules) :
  (0 < limit rules)%Z ->
  select rules = selectCore rules +:+ " " +:+ limitAndOffset1 (limit rules) +:+ " ;".
Proof.
  intros Hl. unfold select.
  destruct (Z.gtb_spec (limit rules) 0) as [_ | Hle]; [| lia].
  reflexivity.
Qed.

Lemma select_unlimited (rules : DQQueryRules) :
  (limit rules <= 0)%Z -> select rules = selectCore rules +:+ " ;".
Proof.
  intros Hl. unfold select.
  destruct (Z.gtb_spec (limit rules) 0) as [Hgt | _]; [lia |].
  reflexivity.
Qed.

Lemma selectCore_all (rules : DQQueryRules) :
  fields rules = [] -> func rules = "" ->
  DQExpression.isNull (expression rules) = true ->
  selectCore rules = "SELECT ALL * FROM " +:+ name (metaInfo rules).
Proof.
  intros Hf Hfn He. unfold selectCore, selectResultColumn.
  rewrite Hf, Hfn, He. cbn [List.length Nat.eqb String.eqb negb join String.concat].
  assert (arg (arg "SELECT %1 %2 FROM %3" "ALL") "*" = "SELECT ALL * FROM %3") as ->
    by (vm_compute; reflexivity).
  arg_text. reflexivity.
Qed.

(** *** Lists of field names *)

Lemma indexOf_lower (x : string) (l : list string) : (-1 <= indexOf x l)%Z.
Proof.
  induction l as [|y l IH]; cbn [indexOf]; [lia |].
  destruct (String.eqb y x); [lia |].
  destruct (Z.ltb_spec (indexOf x l) 0); lia.
Qed.

Lemma indexOf_absent (x : string) (l : list string) :
  x ∉ l -> indexOf x l = (-1)%Z.
Proof.
  induction l as [|y l IH]; intros Hx; cbn [indexOf]; [reflexivity |].
  apply not_elem_of_cons in Hx as [Hne Hx].
  destruct (String.eqb_spec y x) as [-> | _]; [congruence |].
  rewrite (IH Hx). reflexivity.
Qed.

Lemma indexOf_present (x : string) (l : list string) :
  x ∈ l -> (0 <= indexOf x l)%Z.
Proof.
  induction l as [|y l IH]; intros Hx; cbn [indexOf].
  - inversion Hx.
  - destruct (String.eqb_spec y x) as [-> | Hne]; [lia |].
    apply elem_of_cons in Hx as [-> | Hx]; [congruence |].
    specialize (IH Hx). destruct (Z.ltb_spec (indexOf x l) 0); lia.
Qed.

(** Removing at [indexOf x] takes away the first [x] and nothing else. *)
Lemma removeAt_indexOf (x : string) (l : list string) :
  x ∈ l ->
  count_occ string_dec (removeAt (indexOf x l) l) x
    = pred (count_occ string_dec l x).
Proof.
  induction l as [|y l IH]; intros Hx.
  - inversion Hx.
  - cbn [indexOf]. destruct (String.eqb_spec y x) as [-> | Hne].
    + unfold removeAt. cbn. destruct (string_dec x x); [reflexivity | congruence].
    + apply elem_of_cons in Hx as [-> | Hx]; [congruence |].
      specialize (IH Hx). pose proof (indexOf_present x l Hx) as Hi.
      destruct (Z.ltb_spec (indexOf x l) 0) as [? | _]; [lia |].
      unfold removeAt in *.
      destruct (Z.ltb_spec (indexOf x l + 1) 0) as [? | _]; [lia |].
      destruct (Z.ltb_spec (indexOf x l) 0) as [? | _]; [lia |].
      replace (Z.to_nat (indexOf x l + 1)) with (S (Z.to_nat (indexOf x l))) by lia.
      cbn. destruct (string_dec y x); [congruence | exact IH].
Qed.

Lemma count_occ_unique (x : string) (l : list string) :
  x ∈ l -> NoDup l -> count_occ string_dec l x = 1%nat.
Proof.
  intros Hx Hnd. apply NoDup_ListNoDup in Hnd.
  apply list_elem_of_In in Hx.
  apply (proj1 (NoDup_count_occ' string_dec l) Hnd x Hx).
Qed.

Lemma count_occ_placeholders (x : string) (l : list string) :
  count_occ string_dec (placeholders l) (":" +:+ x) = count_occ string_dec l x.
Proof.
  induction l as [|y l IH]; [reflexivity |].
  cbn [placeholders count_occ].
  destruct (string_dec y x) as [-> | Hne].
  - destruct (string_dec (":" +:+ x) (":" +:+ x)); [now rewrite IH | congruence].
  - destruct (string_dec (":" +:+ y) (":" +:+ x)) as [Heq | _]; [| exact IH].
    cbn in Heq. congruence.
Qed.

Lemma count_occ_absent (x : string) (l : list string) :
  count_occ string_dec l x = 0%nat <-> x ∉ l.
Proof.
  rewrite list_elem_of_In. symmetry. apply count_occ_not_In.
Qed.

Lemma columns_with_id (info : DQModelMetaInfo) : columns info true = fieldNameList info.
Proof. reflexivity. Qed.

Lemma columns_without_id (info : DQModelMetaInfo) :
  "id" ∈ fieldNameList info ->
  columns info false = removeAt (indexOf "id" (fieldNameList info)) (fieldNameList info).
Proof.
  intros Hin. unfold columns. cbn [negb].
  pose proof (indexOf_present _ _ Hin).
  destruct (Z.geb_spec (indexOf "id" (fieldNameList info)) 0); [reflexivity | lia].
Qed.

(** *** The limit clause of [select] *)

(** C1, as the specification states it, fails: on the query rules with
    limit 5 and offset 10 over [User], [select] ends in [LIMIT 5 ;] --
    the text holds no [OFFSET] at all, and it is not the select core
    followed by [LIMIT 5 OFFSET 10]. *)
Lemma select_ignores_offset :
  limit (all 5 10) = 5%Z /\ offset (all 5 10) = 10%Z /\
  select (all 5 10) = "SELECT ALL * FROM User LIMIT 5 ;" /\
  select (all 5 10) <> selectCore (all 5 10) +:+ " " +:+ "LIMIT 5 OFFSET 10" +:+ " ;" /\
  contains "OFFSET" (select (all 5 10)) = false.
Proof.
  repeat split; try (vm_compute; reflexivity).
  vm_compute. discriminate.
Qed.

(** C1 (amended).  When limit > 0, [select] emits the select core, then
    the limit clause rendered from the limit alone, then the terminator;
    the offset of the query rules is never read, so with limit 5 the
    clause is [LIMIT 5] whatever the offset.  The renderer itself
    appends [OFFSET m] exactly when it is handed an offset m > 0. *)
Theorem select_limit_clause (rules : DQQueryRules) :
  (0 < limit rules)%Z ->
  select rules
    = selectCore rules +:+ " " +:+ limitAndOffset (limit rules) 0 +:+ " ;" /\
  limitAndOffset (limit rules) 0 = "LIMIT " +:+ pretty (limit rules) /\
  (limit rules = 5%Z -> select rules = selectCore rules +:+ " LIMIT 5 ;") /\
  (forall n m : Z, (0 < m)%Z ->
     limitAndOffset n m = "LIMIT " +:+ pretty n +:+ " OFFSET " +:+ pretty m) /\
  (forall n m : Z, (m <= 0)%Z -> limitAndOffset n m = "LIMIT " +:+ pretty n).
Proof.
  intros Hl. split; [exact (select_limited rules Hl) |].
  split; [apply limitAndOffset_no_offset; lia |].
  split; [| split; [exact limitAndOffset_offset | exact limitAndOffset_no_offset]].
  intros H5. rewrite (select_limited rules Hl). unfold limitAndOffset1, default_offset.
  rewrite limitAndOffset_no_offset by lia. rewrite H5. reflexivity.
Qed.

Lemma select_limit_clause_witness :
  (0 < limit (all 5 10))%Z /\
  select (all 5 10) = selectCore (all 5 10) +:+ " LIMIT 5 ;".
Proof.
  split; [reflexivity |].
  apply (select_limit_clause (all 5 10)); reflexivity.
Defined.

(** *** The plain [select] *)

(** C4, as the specification states it, fails: on the query rules over
    [User] with no field, no function, no filter and limit 0, the text
    has a space between the table name and the terminator. *)
Lemma select_all_has_space :
  fields (all 0 0) = [] /\ func (all 0 0) = "" /\
  DQExpression.isNull (expression (all 0 0)) = true /\ limit (all 0 0) = 0%Z /\
  select (all 0 0) = "SELECT ALL * FROM User ;" /\
  select (all 0 0) <> "SELECT ALL * FROM " +:+ name (metaInfo (all 0 0)) +:+ ";".
Proof.
  repeat split; try (vm_compute; reflexivity).
  vm_compute. discriminate.
Qed.

(** C4 (amended).  With an empty field list, an empty function name, a
    null filter and limit 0, [select] returns [SELECT ALL * FROM <table> ;]:
    the table name, one space, the terminator, and neither a WHERE nor
    a LIMIT clause. *)
Theorem select_all_text (rules : DQQueryRules) :
  fields rules = [] -> func rules = "" ->
  DQExpression.isNull (expression rules) = true -> limit rules = 0%Z ->
  select rules = "SELECT ALL * FROM " +:+ name (metaInfo rules) +:+ " ;".
Proof.
  intros Hf Hfn He Hl.
  rewrite select_unlimited by lia.
  rewrite (selectCore_all rules Hf Hfn He).
  now rewrite append_assoc.
Qed.

Lemma select_all_text_witness : select (all 0 0) = "SELECT ALL * FROM User ;".
Proof. apply (select_all_text (all 0 0)); reflexivity. Defined.

(** *** [insertInto] and [replaceInto] *)

(** C6.  For a model whose field names are unique (the invariant of the
    model metadata) and include [id]: without the id, [insertInto] names
    [id] in neither the column list nor the placeholder list; with it,
    exactly once in each.  Both lists are the ones that appear in the
    text, and the [User] model with fields [id, name] gives
    [INSERT INTO User (name) values (:name);]. *)
Theorem insertInto_id (info : DQModelMetaInfo) :
  "id" ∈ fieldNameList info -> NoDup (fieldNameList info) ->
  (forall with_id,
     insertInto info with_id
       = "INSERT INTO " +:+ name info
           +:+ " (" +:+ join "," (columns info with_id)
           +:+ ") values (" +:+ join "," (placeholders (columns info with_id)) +:+ ");") /\
  ("id" ∉ columns info false) /\
  (":id" ∉ placeholders (columns info false)) /\
  count_occ string_dec (columns info true) "id" = 1%nat /\
  count_occ string_dec (placeholders (columns info true)) ":id" = 1%nat /\
  insertInto User false = "INSERT INTO User (name) values (:name);".
Proof.
  intros Hin Hnd.
  assert (count_occ string_dec (columns info false) "id" = 0%nat) as H0.
  { rewrite (columns_without_id info Hin), removeAt_indexOf by exact Hin.
    now rewrite (count_occ_unique _ _ Hin Hnd). }
  assert (count_occ string_dec (columns info true) "id" = 1%nat) as H1.
  { rewrite columns_with_id. exact (count_occ_unique _ _ Hin Hnd). }
  split; [intros with_id; rewrite insertInto_columns; apply _insertInto_text |].
  split; [now apply count_occ_absent |].
  split.
  { apply count_occ_absent.
    change ":id" with (":" +:+ "id"). now rewrite count_occ_placeholders. }
  split; [exact H1 |].
  split; [| vm_compute; reflexivity].
  change ":id" with (":" +:+ "id"). now rewrite count_occ_placeholders.
Qed.

Lemma insertInto_id_witness :
  ("id" ∉ columns User false) /\ count_occ string_dec (columns User true) "id" = 1%nat.
Proof.
  assert ("id" ∈ fieldNameList User) as Hin by (apply elem_of_cons; now left).
  assert (NoDup (fieldNameList User)) as Hnd
    by (apply (bool_decide_unpack _); vm_compute; exact I).
  pose proof (insertInto_id User Hin Hnd) as (_ & Hout & _ & Hone & _).
  exact (conj Hout Hone).
Defined.

(** C7.  For the same model and the same flag, [replaceInto] and
    [insertInto] are built on the same column list and the same
    placeholder list, and their texts are one common remainder behind
    the keyword [REPLACE], respectively [INSERT]. *)
Theorem replaceInto_insertInto (info : DQModelMetaInfo) (with_id : bool) :
  let rest :=
    " INTO " +:+ name info
      +:+ " (" +:+ join "," (columns info with_id)
      +:+ ") values (" +:+ join "," (placeholders (columns info with_id)) +:+ ");" in
  insertInto info with_id = "INSERT" +:+ rest /\
  replaceInto info with_id = "REPLACE" +:+ rest.
Proof.
  cbv zeta. split.
  - rewrite insertInto_columns. apply _insertInto_text.
  - rewrite replaceInto_columns. apply _insertInto_text.
Qed.

End StatementFacts.

(** * Properties of the connection registry *)

Section ConnectionFacts.
Context {E : Type} `{DQEngine E}.
Implicit Types (w : World (E := E)) (this : DQConnection) (l : loc).

#[local] Abbreviation keeps := (keeps_mapping (E := E)).

(** *** Running a sequence *)

Lemma bind_Ok {A B} (c : M (E := E) A) (k : A -> M B) w (r : B * World) :
  bind c k w = Ok r <-> exists a w1, c w = Ok (a, w1) /\ k a w1 = Ok r.
Proof.
  unfold bind. destruct (c w) as [[a w1] | f].
  - split; [eauto | intros (a' & w' & [= <- <-] & Hk); exact Hk].
  - split; [discriminate | intros (? & ? & [=] & _)].
Qed.

Lemma bind_run {A B} (c : M (E := E) A) (k : A -> M B) w a w1 :
  c w = Ok (a, w1) -> bind c k w = k a w1.
Proof. intros Hc. unfold bind. now rewrite Hc. Qed.

Lemma bind_fault {A B} (c : M (E := E) A) (k : A -> M B) w f :
  c w = Fault f -> bind c k w = Fault f.
Proof. intros Hc. unfold bind. now rewrite Hc. Qed.

(** *** What leaves the mapping alone *)

Lemma keeps_ret {A} (a : A) : keeps (ret a).
Proof. intros w a' w' [= _ <-]. reflexivity. Qed.

Lemma keeps_raise {A} f : keeps (raise (A := A) f).
Proof. intros w a w' [=]. Qed.

Lemma keeps_bind {A B} (c : M (E := E) A) (k : A -> M B) :
  keeps_mapping c -> (forall a, keeps (k a)) -> keeps (bind c k).
Proof.
  intros Hc Hk w b w' (a & w1 & H1 & H2)%bind_Ok.
  rewrite (Hk _ _ _ _ H2). exact (Hc _ _ _ H1).
Qed.

Lemma keeps_deref this : keeps (deref this).
Proof.
  intros w p w'. unfold deref. destruct this as [l |]; [| discriminate].
  destruct (privs w !! l); [intros [= _ <-]; reflexivity | discriminate].
Qed.

Lemma keeps_update this f : keeps (update this f).
Proof.
  intros w p w'. unfold update. destruct this as [l |]; [| discriminate].
  destruct (privs w !! l); [intros [= _ <-]; reflexivity | discriminate].
Qed.

Lemma keeps_new_priv p : keeps (new_priv p).
Proof. intros w l w' [= _ <-]. reflexivity. Qed.

Lemma keeps_new_engine e : keeps (new_engine e).
Proof. intros w l w' [= _ <-]. reflexivity. Qed.

Lemma keeps_engine_call {A} engine (method : E -> A * E) :
  keeps (engine_call engine method).
Proof.
  intros w a w'. unfold engine_call. destruct engine as [l |]; [| discriminate].
  destruct (engines w !! l) as [e |]; [| discriminate].
  destruct (method e). intros [= _ <-]. reflexivity.
Qed.

Lemma keeps_engine_get {A} engine (method : E -> A) :
  keeps (engine_get engine method).
Proof.
  intros w a w'. unfold engine_get. destruct engine as [l |]; [| discriminate].
  destruct (engines w !! l) as [e |]; [| discriminate].
  intros [= _ <-]. reflexivity.
Qed.

Lemma keeps_delete_engine l : keeps (delete_engine l).
Proof.
  intros w a w'. unfold delete_engine.
  destruct (engines w !! l); [intros [= _ <-]; reflexivity | discriminate].
Qed.

Create HintDb frame.
#[local] Hint Resolve keeps_ret keeps_raise keeps_deref keeps_update keeps_new_priv
  keeps_new_engine keeps_engine_call keeps_engine_get keeps_delete_engine : frame.

Ltac frame :=
  repeat first
    [ progress eauto with frame
    | apply keeps_bind; [| intros ?]
    | match goal with
      | |- keeps_mapping (match ?x with _ => _ end) => destruct x
      | |- keeps_mapping (if ?x then _ else _) => destruct x
      end ].

Lemma keeps_mutex_lock this : keeps (mutex_lock this).
Proof. unfold mutex_lock. frame. Qed.

Lemma keeps_mutex_unlock this : keeps (mutex_unlock this).
Proof. unfold mutex_unlock. frame. Qed.

#[local] Hint Resolve keeps_mutex_lock keeps_mutex_unlock : frame.

Lemma keeps_isOpen this : keeps (isOpen this).
Proof. unfold isOpen. frame. Qed.

#[local] Hint Resolve keeps_isOpen : frame.

Lemma keeps_setEngine this engine : keeps (setEngine this engine).
Proof. unfold setEngine. frame. Qed.

#[local] Hint Resolve keeps_setEngine : frame.

Lemma keeps_PREPARE_PRIV this : keeps (PREPARE_PRIV this).
Proof. unfold PREPARE_PRIV. frame. Qed.

Lemma keeps_setLastQuery this q : keeps (setLastQuery this q).
Proof. unfold setLastQuery. frame. Qed.

Lemma keeps_lastQuery this : keeps (lastQuery this).
Proof. unfold lastQuery. frame. Qed.

Lemma keeps_open this db : keeps (open this db).
Proof. pose proof keeps_PREPARE_PRIV. unfold open. frame. Qed.

Ltac step := cbn -[lookup insert delete fresh dom]; rewrite ?lookup_insert_eq.

(** *** Null state *)

Lemma isOpen_null w : isOpen None w = Ok (false, w).
Proof. reflexivity. Qed.

Lemma isOpen_world this w b w' : isOpen this w = Ok (b, w') -> w' = w.
Proof.
  unfold isOpen. destruct this as [l |]; cbn [isNull]; [| now intros [= _ <-]].
  intros (p & w1 & Hd & Hk)%bind_Ok.
  assert (w1 = w) as ->.
  { unfold deref in Hd. destruct (privs w !! l); [now injection Hd | discriminate]. }
  destruct (engine_ p) as [e |]; [| now injection Hk].
  unfold engine_get in Hk. destruct (engines w !! e); [now injection Hk | discriminate].
Qed.

(** The macro, by contrast, allocates: from a null handle it yields a
    fresh private state that holds a fresh default engine. *)
Lemma PREPARE_PRIV_null w :
  let l := fresh (dom (privs w)) in
  let e := fresh (dom (engines w)) in
  exists w',
    PREPARE_PRIV None w = Ok (Some l, w') /\
    privs w !! l = None /\ engines w !! e = None /\
    privs w' !! l = Some (DQConnectionPriv_of (Some e)) /\
    engines w' !! e = Some DQSqliteEngine_new /\
    mapping w' = mapping w.
Proof.
  intros l e.
  assert (privs w !! l = None) as Hl by (apply not_elem_of_dom, is_fresh).
  assert (engines w !! e = None) as He by (apply not_elem_of_dom, is_fresh).
  unfold PREPARE_PRIV, setEngine, isOpen, mutex_lock, mutex_unlock, bind, new_priv,
    new_engine, ret, deref, update.
  step. fold l. step. fold e. do 4 step.
  eexists. split; [reflexivity |]. step. auto.
Qed.

Lemma PREPARE_PRIV_handle this w this' w' :
  PREPARE_PRIV this w = Ok (this', w') ->
  this' <> None /\ (this <> None -> this' = this).
Proof.
  unfold PREPARE_PRIV. intros (t & w1 & H1 & H2)%bind_Ok.
  assert (this' = t) as ->.
  { apply bind_Ok in H2 as (p & w2 & _ & Hm).
    destruct (engine_ p).
    - now injection Hm.
    - apply bind_Ok in Hm as (e & w3 & _ & Hm).
      apply bind_Ok in Hm as (b & w4 & _ & Hm). now injection Hm. }
  destruct this as [l |]; cbn [isNull] in H1.
  - injection H1 as <- _. split; congruence.
  - apply bind_Ok in H1 as (l & w2 & _ & [= <- _]). split; congruence.
Qed.

(** C3, at the failing input.  On a null connection the macro at the head
    of [open] and [addModel] allocates the state and a default engine,
    but [setEngine] does not run it: it finds the connection not open and
    then dereferences the absent state. *)
Theorem setEngine_null_faults (engine : option loc) w :
  (exists l e w',
     PREPARE_PRIV None w = Ok (Some l, w') /\
     privs w' !! l = Some (DQConnectionPriv_of (Some e)) /\
     engines w' !! e = Some DQSqliteEngine_new) /\
  isOpen None w = Ok (false, w) /\
  setEngine None engine w = Fault NullPointer.
Proof.
  split; [| split; reflexivity].
  destruct (PREPARE_PRIV_null w) as (w' & Hrun & _ & _ & Hp & He & _).
  eauto 6.
Qed.

(** *** Null model pointers *)

(** C10.  With a null model pointer, [addModel] returns false with the
    handle and the whole state as they were (no private state is
    allocated, the mapping is untouched), and [defaultConnection]
    returns a null connection, again with the state as it was (nothing
    is added to the warnings). *)
Theorem null_metaInfo this w :
  addModel this 0%N w = Ok ((false, this), w) /\
  defaultConnection 0%N w = Ok (None, w).
Proof. split; reflexivity. Qed.

(** *** The last query of a connection that is not open *)

(** The three ways of not being open. *)
Lemma not_open_cases this w :
  isOpen this w = Ok (false, w) <->
  this = None \/
  exists l p, this = Some l /\ privs w !! l = Some p /\
    (engine_ p = None \/
     exists e eo, engine_ p = Some e /\ engines w !! e = Some eo /\ eng_isOpen eo = false).
Proof.
  unfold isOpen, bind, deref, engine_get, ret. split.
  - destruct this as [l |]; [| now left]. intros Hk. right. cbn [isNull] in Hk.
    destruct (privs w !! l) as [p |] eqn:Hp; [| discriminate].
    exists l, p. split; [reflexivity |]. split; [exact Hp |].
    destruct (engine_ p) as [e |] eqn:He; [| now left]. right.
    destruct (engines w !! e) as [eo |] eqn:Heo; [| discriminate].
    exists e, eo. split; [reflexivity |]. split; [exact Heo | congruence].
  - intros [-> | (l & p & -> & Hp & Hcase)]; [reflexivity |].
    cbn [isNull]. rewrite Hp.
    destruct Hcase as [-> | (e & eo & -> & Heo & Hclosed)]; [reflexivity |].
    rewrite Heo, Hclosed. reflexivity.
Qed.

(** C9.  On a connection that is not open, [setLastQuery] changes
    nothing -- the stored last query included -- and [lastQuery] returns
    the default-constructed query, whatever is stored. *)
Theorem lastQuery_not_open this (query : QSqlQuery) w :
  isOpen this w = Ok (false, w) ->
  setLastQuery this query w = Ok (tt, w) /\
  lastQuery this w = Ok (QSqlQuery_default, w).
Proof.
  intros Hopen. unfold setLastQuery, lastQuery.
  rewrite !(bind_run _ _ _ _ _ Hopen). split; reflexivity.
Qed.

(** *** Replacing the engine *)

Lemma setEngine_open this engine w :
  isOpen this w = Ok (true, w) -> setEngine this engine w = Ok (false, w).
Proof. intros Hopen. unfold setEngine. now rewrite (bind_run _ _ _ _ _ Hopen). Qed.

(** On a connection with allocated state that is not open, the previous
    engine is destroyed and the new pointer installed. *)
Lemma setEngine_not_open l p engine w :
  privs w !! l = Some p ->
  isOpen (Some l) w = Ok (false, w) ->
  exists w',
    setEngine (Some l) engine w = Ok (true, w') /\
    privs w' = <[l := set_engine_ engine p]> (privs w) /\
    engines w' = match engine_ p with
                 | Some old => delete old (engines w)
                 | None => engines w
                 end /\
    mapping w' = mapping w.
Proof.
  intros Hp Hopen. unfold setEngine. rewrite (bind_run _ _ _ _ _ Hopen).
  apply not_open_cases in Hopen as [[=] | (l' & p' & [= <-] & Hp' & Hcase)].
  rewrite Hp in Hp'. injection Hp' as <-.
  unfold mutex_lock, mutex_unlock, bind, deref, update, delete_engine, ret.
  destruct Hcase as [Hnone | (e & eo & Hsome & Heo & _)].
  - repeat progress (step; rewrite ?Hp, ?Hnone).
    eexists. split; [reflexivity |]. step. auto.
  - repeat progress (step; rewrite ?Hp, ?Hsome, ?Heo).
    eexists. split; [reflexivity |]. step.
    split; [| auto]. now rewrite insert_insert_eq.
Qed.

(** *** Binding models and the default connection *)

Lemma addModel_handle this m w res this' w' :
  addModel this m w = Ok ((res, this'), w') -> m <> 0%N ->
  this' <> None /\ (this <> None -> this' = this).
Proof.
  unfold addModel. intros Hrun Hm.
  destruct (N.eqb_spec m 0) as [-> | _]; [congruence |].
  apply bind_Ok in Hrun as (t & w1 & Hprep & Hrun).
  apply bind_Ok in Hrun as (p & w2 & _ & Hrun).
  apply bind_Ok in Hrun as (r & w3 & _ & Hrun).
  apply bind_Ok in Hrun as (found & w4 & _ & Hrun).
  apply bind_Ok in Hrun as (u & w5 & _ & [= _ <- _]).
  exact (PREPARE_PRIV_handle _ _ _ _ Hprep).
Qed.

Lemma addModel_mapping this m w res this' w' :
  addModel this m w = Ok ((res, this'), w') ->
  mapping w' =
    if res && negb (bool_decide (is_Some (mapping w !! m)))
    then <[m := this']> (mapping w) else mapping w.
Proof.
  unfold addModel. intros Hrun.
  destruct (N.eqb_spec m 0) as [-> | _]; [now injection Hrun as <- _ <-|].
  apply bind_Ok in Hrun as (t & w1 & Hprep%keeps_PREPARE_PRIV & Hrun).
  apply bind_Ok in Hrun as (p & w2 & Hd%keeps_deref & Hrun).
  apply bind_Ok in Hrun as (r & w3 & Hcall%keeps_engine_call & Hrun).
  apply bind_Ok in Hrun as (found & w4 & [= <- <-] & Hrun).
  apply bind_Ok in Hrun as (u & w5 & Hassign & [= <- <- <-]).
  assert (mapping w3 = mapping w) as Hmap by congruence.
  rewrite Hmap in Hassign.
  destruct (r && negb (bool_decide (is_Some (mapping w !! m)))).
  - injection Hassign as _ <-. cbn. now rewrite Hmap.
  - injection Hassign as _ <-. exact Hmap.
Qed.

Lemma addModel_null_fails this w res this' w' :
  addModel this 0%N w = Ok ((res, this'), w') -> res = false.
Proof. now intros [= <- _ _]. Qed.

(** C8.  When [addModel] succeeds for a model that has no default yet,
    the connection it was called on (the handle as the call leaves it:
    never null, and the caller's own unless that was null) is entered
    as the default.  A later successful [addModel] of the model on any
    connection leaves that entry as it is.  [setDefaultConnection]
    always succeeds and enters its own connection, whatever was there. *)
Theorem addModel_first_default A m w A' w1 :
  addModel A m w = Ok ((true, A'), w1) ->
  mapping w !! m = None ->
  A' <> None /\ (A <> None -> A' = A) /\
  mapping w1 !! m = Some A' /\
  (forall B B' w2,
     addModel B m w1 = Ok ((true, B'), w2) -> mapping w2 !! m = Some A') /\
  (forall C w2, exists w3,
     setDefaultConnection C m w2 = Ok (tt, w3) /\ mapping w3 !! m = Some C).
Proof.
  intros Hadd Hnone.
  assert (m <> 0%N) as Hm.
  { intros ->. now apply addModel_null_fails in Hadd. }
  destruct (addModel_handle _ _ _ _ _ _ Hadd Hm) as [Hnn Hsame].
  assert (mapping w1 !! m = Some A') as Hdef.
  { rewrite (addModel_mapping _ _ _ _ _ _ Hadd), Hnone.
    rewrite bool_decide_eq_false_2 by (intros [? [=]]).
    cbn. apply lookup_insert_eq. }
  repeat split; try assumption.
  - intros B B' w2 Hadd2.
    rewrite (addModel_mapping _ _ _ _ _ _ Hadd2), Hdef.
    rewrite bool_decide_eq_true_2 by eauto. exact Hdef.
  - intros C w2. eexists. split; [reflexivity |]. cbn. apply lookup_insert_eq.
Qed.

(** *** Closing *)

Lemma close_loop (models : list metaptr) w :
  exists w',
    foreach models (fun metaInfo =>
      bind (mapping_contains metaInfo) (fun found =>
        if found then bind (mapping_take metaInfo) (fun _ => ret tt) else ret tt)) w
      = Ok (tt, w') /\
    privs w' = privs w /\ engines w' = engines w /\
    metaInfos w' = metaInfos w /\ warnings w' = warnings w /\
    forall m, mapping w' !! m
              = if bool_decide (m ∈ models) then None else mapping w !! m.
Proof.
  revert w. induction models as [| x models IH]; intros w.
  - exists w. repeat split; reflexivity.
  - cbn [foreach]. unfold bind at 1. unfold bind at 1. unfold mapping_contains at 1.
    set (w1 := if bool_decide (is_Some (mapping w !! x))
               then set_mapping (delete x) w else w).
    assert (privs w1 = privs w /\ engines w1 = engines w /\
            metaInfos w1 = metaInfos w /\ warnings w1 = warnings w /\
            forall m, mapping w1 !! m = if bool_decide (m = x) then None else mapping w !! m)
      as (Hp & He & Hi & Hw & Hm).
    { subst w1. destruct (bool_decide_reflect (is_Some (mapping w !! x))) as [Hs | Hs].
      - repeat split; try reflexivity. intros m. cbn.
        destruct (bool_decide_reflect (m = x)) as [-> | Hne].
        + apply lookup_delete_eq.
        + now apply lookup_delete_ne.
      - repeat split; try reflexivity. intros m.
        destruct (bool_decide_reflect (m = x)) as [-> | Hne]; [| reflexivity].
        now apply eq_None_not_Some. }
    destruct (IH w1) as (w' & Hrun & Hp' & He' & Hi' & Hw' & Hm').
    exists w'. split.
    { rewrite <- Hrun. subst w1.
      destruct (bool_decide (is_Some (mapping w !! x))); reflexivity. }
    repeat split; try congruence.
    intros m. rewrite Hm', Hm.
    destruct (bool_decide_reflect (m = x)) as [-> | Hne].
    + rewrite (bool_decide_eq_true_2 (x ∈ x :: models)) by (apply elem_of_cons; now left).
      now destruct (bool_decide (x ∈ models)).
    + destruct (bool_decide_reflect (m ∈ models)) as [Hin | Hout].
      * rewrite bool_decide_eq_true_2 by (apply elem_of_cons; now right). reflexivity.
      * rewrite bool_decide_eq_false_2; [reflexivity |].
        intros [? | ?]%elem_of_cons; contradiction.
Qed.

(** C2 (amended).  On a connection whose state holds a live engine,
    [close] resets the database of the SQL sub-object, closes the engine
    and then removes from the mapping the entry of every model the
    closed engine reports as bound -- whichever connection the entry
    points at.  The entries of all other models are left as they were. *)
Theorem close_removes_bound l p e eo w :
  privs w !! l = Some p -> engine_ p = Some e -> engines w !! e = Some eo ->
  exists w',
    close (Some l) w = Ok (tt, w') /\
    privs w' = <[l := set_database QSqlDatabase_default p]> (privs w) /\
    engines w' = <[e := eng_close eo]> (engines w) /\
    (forall m, m ∈ eng_modelList (eng_close eo) -> mapping w' !! m = None) /\
    (forall m, m ∉ eng_modelList (eng_close eo) -> mapping w' !! m = mapping w !! m).
Proof.
  intros Hp He Heo. unfold close. cbn [isNull].
  unfold bind at 1. unfold update at 1. rewrite Hp.
  unfold bind at 1. unfold deref at 1. step.
  unfold bind at 1. unfold engine_call at 1. step. rewrite He, Heo. step.
  unfold bind at 1. unfold deref at 1. step.
  unfold bind at 1. unfold engine_get at 1. step. rewrite He. step.
  match goal with
  | |- context [foreach ?ms ?body ?w0] =>
      destruct (close_loop ms w0) as (w' & Hrun & Hp' & He' & _ & _ & Hm')
  end.
  exists w'. split; [exact Hrun |].
  split; [exact Hp' |]. split; [exact He' |].
  split; intros m Hm; rewrite Hm'.
  - now rewrite bool_decide_eq_true_2.
  - now rewrite bool_decide_eq_false_2.
Qed.

(** *** The entry points that prepare the state *)

Lemma addModel_null m w :
  m <> 0%N ->
  exists r l w', addModel None m w = Ok ((r, Some l), w') /\ is_Some (privs w' !! l).
Proof.
  intros Hm. unfold addModel. destruct (N.eqb_spec m 0) as [-> | _]; [congruence |].
  destruct (PREPARE_PRIV_null w) as (w1 & Hrun & _ & _ & Hp & He & _).
  rewrite (bind_run _ _ _ _ _ Hrun).
  unfold bind, deref, engine_call, mapping_contains, mapping_assign, ret.
  rewrite Hp. step. rewrite He.
  destruct (eng_addModel m DQSqliteEngine_new) as [r e']. step.
  destruct (r && _); eexists _, _, _; (split; [reflexivity |]); step; rewrite Hp; eauto.
Qed.

Lemma open_null db w :
  db_isOpen db = true ->
  exists l w', open None db w = Ok ((true, Some l), w') /\ is_Some (privs w' !! l).
Proof.
  intros Hdb. unfold open. rewrite Hdb.
  destruct (PREPARE_PRIV_null w) as (w1 & Hrun & _ & _ & Hp & He & _).
  unfold bind at 1. unfold ret at 1.
  rewrite (bind_run _ _ _ _ _ Hrun).
  unfold bind, deref, update, engine_call, ret.
  repeat progress (step; rewrite ?Hp, ?He).
  destruct (eng_open db DQSqliteEngine_new) as [r e'].
  eexists _, _. split; [reflexivity |]. step. eauto.
Qed.

End ConnectionFacts.

(** * The registry on concrete states *)

Module ConnectionCases.
Import ConnectionExamples.

Lemma A_bound : addModel None User start = Ok ((true, A), w_A).
Proof. vm_compute. reflexivity. Qed.

Lemma B_bound : addModel None User w_A = Ok ((true, B), w_AB).
Proof. vm_compute. reflexivity. Qed.

(** C2, as the specification states it, fails: [User] is bound to the
    engines of both [A] and [B] and its default is [A]; closing [B]
    removes the entry although it points at the other connection. *)
Lemma close_removes_foreign_entry :
  mapping w_AB !! User = Some A /\ A <> B /\ conn_eqb A B = false /\
  exists w', close B w_AB = Ok (tt, w') /\ mapping w' !! User = None.
Proof.
  split; [vm_compute; reflexivity |].
  split; [discriminate |].
  split; [vm_compute; reflexivity |].
  eexists. split; vm_compute; reflexivity.
Qed.

Lemma close_removes_bound_witness :
  exists w', close B w_AB = Ok (tt, w') /\ mapping w' !! User = None.
Proof.
  destruct (close_removes_bound 2%positive (DQConnectionPriv_of (Some 2%positive))
              2%positive {| SqliteEngine.db := None; SqliteEngine.models := [User] |} w_AB)
    as (w' & Hrun & _ & _ & Hin & _);
    [vm_compute; reflexivity | reflexivity | vm_compute; reflexivity |].
  exists w'. split; [exact Hrun |].
  apply Hin. apply list_elem_of_here.
Defined.

(** C5, at the failing input: a null connection is not open, and
    [setEngine] on it, handed an engine of the application, dereferences
    the absent state instead of returning true. *)
Theorem setEngine_null_example :
  isOpen None w_engine = Ok (false, w_engine) /\
  engines w_engine !! 1%positive = Some SqliteEngine.new /\
  setEngine None (Some 1%positive) w_engine = Fault NullPointer.
Proof. repeat split; vm_compute; reflexivity. Qed.

Lemma addModel_first_default_witness :
  mapping w_A !! User = Some A /\
  (forall B' w2, addModel B User w_A = Ok ((true, B'), w2) -> mapping w2 !! User = Some A).
Proof.
  destruct (addModel_first_default None User start A w_A A_bound)
    as (_ & _ & Hdef & Hlater & _); [vm_compute; reflexivity |].
  split; [exact Hdef | exact (Hlater B)].
Defined.

Lemma lastQuery_not_open_witness :
  (exists p, privs w_closed !! 1%positive = Some p /\ lastQuery_ p = someQuery) /\
  lastQuery A w_closed = Ok (QSqlQuery_default, w_closed).
Proof.
  split; [eexists; split; vm_compute; reflexivity |].
  apply (lastQuery_not_open A someQuery w_closed). vm_compute. reflexivity.
Defined.

End ConnectionCases.

(** * More on the statement builder *)

Module MarkerFacts.
Import QString.

Lemma length_append (a b : string) :
  String.length (a +:+ b) = (String.length a + String.length b)%nat.
Proof. induction a as [| c a IH]; [reflexivity | cbn; now rewrite IH]. Qed.

Lemma plain_cons (c : ascii) (s : string) :
  plain (String c s) = true <-> c <> pct /\ plain s = true.
Proof.
  unfold plain.
  change (contains "%" (String c s))
    with ((if ascii_dec pct c then String.prefix "" s else false) || contains "%" s).
  destruct (ascii_dec pct c) as [<- | Hne].
  - assert (String.prefix "" s = true) as -> by (destruct s; reflexivity).
    rewrite orb_true_l. split; [discriminate | intros [[] _]; reflexivity].
  - rewrite orb_false_l. split; [intros Hp; split; [congruence | exact Hp] | now intros [_ Hp]].
Qed.

Lemma plain_append (a b : string) :
  plain a = true -> plain b = true -> plain (a +:+ b) = true.
Proof.
  intros Ha Hb. induction a as [| c a IH]; [exact Hb |].
  apply plain_cons in Ha as [Hc Ha]. cbn. apply plain_cons. auto.
Qed.

Lemma plain_join (l : list string) :
  Forall (fun f => plain f = true) l -> plain (join "," l) = true.
Proof.
  unfold join. induction 1 as [| f l Hf Hl IH]; [reflexivity |].
  cbn [String.concat]. destruct l as [| g l]; [exact Hf |].
  apply plain_append; [exact Hf |]. apply (plain_append ","); [reflexivity | exact IH].
Qed.

Lemma scan_plain_prefix (a t : string) (fuel : nat) :
  plain a = true ->
  scan (String.length a + fuel) (a +:+ t) = (lits a ++ scan fuel t)%list.
Proof.
  intros Ha. induction a as [| c a IH]; [reflexivity |].
  apply plain_cons in Ha as [Hc Ha].
  cbn [String.length Nat.add String.append scan lits app].
  destruct (Ascii.eqb_spec c pct) as [-> | _]; [congruence |].
  now rewrite IH.
Qed.

Lemma pieces_plain_prefix (a t : string) :
  plain a = true -> pieces (a +:+ t) = (lits a ++ pieces t)%list.
Proof.
  intros Ha. unfold pieces. rewrite length_append. now apply scan_plain_prefix.
Qed.

Lemma numbers_lits (a : string) (ps : list piece) :
  numbers (lits a ++ ps)%list = numbers ps.
Proof. induction a as [| c a IH]; [reflexivity | exact IH]. Qed.

Lemma render_lits (sub : nat -> option string) (a : string) (ps : list piece) :
  render sub (lits a ++ ps)%list = a +:+ render sub ps.
Proof. induction a as [| c a IH]; [reflexivity | cbn; now rewrite IH]. Qed.

(** [arg] passes over a plain prefix of its format. *)
Lemma arg_plain_prefix (a t x : string) :
  plain a = true -> arg (a +:+ t) x = a +:+ arg t x.
Proof.
  intros Ha. unfold arg. rewrite (pieces_plain_prefix a t Ha), numbers_lits.
  destruct (lowest (numbers (pieces t))); [apply render_lits | reflexivity].
Qed.

End MarkerFacts.

Module StatementTexts.
Import QString DQSqlStatement StatementExamples MarkerFacts StatementFacts.

Lemma selectResultColumn_plain (rules : DQQueryRules) :
  plain (func rules) = true ->
  let base := match fields rules with [] => "*" | _ => join "," (fields rules) end in
  selectResultColumn rules
    = if String.eqb (func rules) "" then base
      else func rules +:+ "(" +:+ base +:+ ")".
Proof.
  intros Hfn base. unfold selectResultColumn.
  assert ((if (List.length (fields rules) =? 0)%nat then "*" else join "," (fields rules))
          = base) as -> by (subst base; now destruct (fields rules)).
  destruct (String.eqb (func rules) ""); cbn [negb]; [reflexivity |].
  assert (arg "%1(%2)" (func rules) = func rules +:+ "(%2)") as ->
    by (arg_text; reflexivity).
  rewrite (arg_plain_prefix _ _ _ Hfn). f_equal.
Qed.

Lemma columns_plain (rules : DQQueryRules) :
  Forall (fun f => plain f = true) (fields rules) -> plain (func rules) = true ->
  plain (selectResultColumn rules) = true.
Proof.
  intros Hf Hfn. rewrite (selectResultColumn_plain rules Hfn).
  assert (plain match fields rules with [] => "*" | _ => join "," (fields rules) end = true)
    as Hbase by (destruct (fields rules); [reflexivity | now apply plain_join]).
  destruct (String.eqb (func rules) ""); [exact Hbase |].
  apply plain_append; [exact Hfn |]. apply (plain_append "("); [reflexivity |].
  apply plain_append; [exact Hbase | reflexivity].
Qed.

Lemma selectCore_plain (rules : DQQueryRules) :
  plain (selectResultColumn rules) = true ->
  selectCore rules
    = "SELECT ALL " +:+ selectResultColumn rules +:+ " FROM " +:+ name (metaInfo rules)
        +:+ (if DQExpression.isNull (expression rules) then ""
             else " WHERE " +:+ DQExpression.string (expression rules)).
Proof.
  intros Hc. unfold selectCore.
  assert (arg "SELECT %1 %2 FROM %3" "ALL" = "SELECT ALL %2 FROM %3") as ->
    by (vm_compute; reflexivity).
  assert (arg "SELECT ALL %2 FROM %3" (selectResultColumn rules)
          = "SELECT ALL " +:+ selectResultColumn rules +:+ " FROM %3") as ->
    by (arg_text; reflexivity).
  rewrite (arg_plain_prefix "SELECT ALL " _ _ eq_refl), (arg_plain_prefix _ _ _ Hc).
  assert (arg " FROM %3" (name (metaInfo rules)) = " FROM " +:+ name (metaInfo rules))
    as -> by (arg_text; reflexivity).
  destruct (DQExpression.isNull (expression rules)); cbn [negb join String.concat app].
  - now rewrite append_nil_r.
  - rewrite where_text, !append_assoc. reflexivity.
Qed.

(** X1.  For query rules whose field names and function name hold no [%],
    [select] is the text [SELECT ALL], the columns ([*] for no field,
    else the names joined by commas; wrapped as [func(..)] when a
    function is named), [FROM] and the table, a [WHERE] part unless the
    filter is null, a [LIMIT] part when the limit is positive, a space
    and the terminator. *)
Theorem select_text (rules : DQQueryRules) :
  Forall (fun f => plain f = true) (fields rules) -> plain (func rules) = true ->
  let base := match fields rules with [] => "*" | _ => join "," (fields rules) end in
  let cols :=
    if String.eqb (func rules) "" then base else func rules +:+ "(" +:+ base +:+ ")" in
  let where_ :=
    if DQExpression.isNull (expression rules) then ""
    else " WHERE " +:+ DQExpression.string (expression rules) in
  let limit_ :=
    if (limit rules >? 0)%Z then " LIMIT " +:+ pretty (limit rules) else "" in
  select rules
    = "SELECT ALL " +:+ cols +:+ " FROM " +:+ name (metaInfo rules)
        +:+ where_ +:+ limit_ +:+ " ;".
Proof.
  intros Hf Hfn base cols where_ limit_.
  assert (selectCore rules
          = "SELECT ALL " +:+ cols +:+ " FROM " +:+ name (metaInfo rules) +:+ where_)
    as Hcore.
  { rewrite (selectCore_plain rules (columns_plain rules Hf Hfn)).
    now rewrite (selectResultColumn_plain rules Hfn). }
  subst limit_. destruct (Z.gtb_spec (limit rules) 0) as [Hpos | Hle].
  - rewrite (select_limited rules Hpos). unfold limitAndOffset1, default_offset.
    rewrite limitAndOffset_no_offset by lia. rewrite Hcore, !append_assoc. reflexivity.
  - rewrite (select_unlimited rules Hle), Hcore, !append_assoc. reflexivity.
Qed.

Lemma select_text_witness :
  select counted = "SELECT ALL count(id,name) FROM User WHERE age > 30 LIMIT 3 ;".
Proof.
  apply (select_text counted); [| reflexivity].
  repeat constructor.
Defined.

(** A field name that holds a place marker is not copied: the table name
    is put in its place, and the marker after [FROM] stays. *)
Lemma select_marker_in_field (table : string) :
  select {| metaInfo := {| name := table; className := ""; fieldNameList := [] |};
            fields := ["%1"]; func := ""; expression := noFilter;
            limit := 0; offset := 0 |}
    = "SELECT ALL " +:+ table +:+ " FROM %3 ;".
Proof.
  unfold select, selectCore, selectResultColumn.
  cbn [fields func expression limit metaInfo name List.length Nat.eqb String.eqb negb
       DQExpression.isNull noFilter join String.concat app Z.gtb Z.compare].
  assert (arg (arg "SELECT %1 %2 FROM %3" "ALL") "%1" = "SELECT ALL %1 FROM %3") as ->
    by (vm_compute; reflexivity).
  arg_text. now rewrite append_assoc.
Qed.

(** X2.  [deleteFrom] is [DELETE FROM] and the table, a [WHERE] part
    unless the filter is null, a [LIMIT] part (never an offset) when the
    limit is positive, a space and the terminator -- for every table
    name and filter text. *)
Theorem deleteFrom_text (rules : DQQueryRules) :
  deleteFrom rules
    = "DELETE FROM " +:+ name (metaInfo rules)
        +:+ (if DQExpression.isNull (expression rules) then ""
             else " WHERE " +:+ DQExpression.string (expression rules))
        +:+ (if (limit rules >? 0)%Z then " LIMIT " +:+ pretty (limit rules) else "")
        +:+ " ;".
Proof.
  unfold deleteFrom.
  assert (arg "DELETE FROM %1" (name (metaInfo rules))
          = "DELETE FROM " +:+ name (metaInfo rules)) as -> by (arg_text; reflexivity).
  unfold limitAndOffset1, default_offset.
  rewrite limitAndOffset_no_offset by lia. rewrite where_text.
  destruct (DQExpression.isNull (expression rules)), (limit rules >? 0)%Z;
    cbn [negb join String.concat app]; rewrite ?append_assoc, ?append_nil_r; reflexivity.
Qed.

End StatementTexts.

Module InsertFacts.
Import QString DQSqlStatement StatementExamples StatementFacts.

Lemma removeAt_indexOf_split (x : string) (l : list string) :
  x ∈ l ->
  exists l1 l2,
    l = (l1 ++ x :: l2)%list /\ (x ∉ l1) /\
    removeAt (indexOf x l) l = (l1 ++ l2)%list.
Proof.
  induction l as [| y l IH]; intros Hx; [inversion Hx |].
  cbn [indexOf]. destruct (String.eqb_spec y x) as [-> | Hne].
  - exists [], l. split; [reflexivity |]. split; [apply not_elem_of_nil | reflexivity].
  - apply elem_of_cons in Hx as [-> | Hx]; [congruence |].
    destruct (IH Hx) as (l1 & l2 & Hl & Hout & Hrem).
    pose proof (indexOf_present x l Hx) as Hi.
    exists (y :: l1), l2. split; [now rewrite Hl |].
    split; [apply not_elem_of_cons; split; [congruence | exact Hout] |].
    destruct (Z.ltb_spec (indexOf x l) 0) as [? | _]; [lia |].
    unfold removeAt in *.
    destruct (Z.ltb_spec (indexOf x l + 1) 0) as [? | _]; [lia |].
    destruct (Z.ltb_spec (indexOf x l) 0) as [? | _]; [lia |].
    replace (Z.to_nat (indexOf x l + 1)) with (S (Z.to_nat (indexOf x l))) by lia.
    cbn [delete list_delete]. cbn. f_equal. exact Hrem.
Qed.

(** X3.  When the field list holds [id], the statements without the id
    are built on the field list less its first [id]: the fields before
    it and the fields after it stay, in their order -- a second [id]
    further on included. *)
Theorem columns_drop_first_id (info : DQModelMetaInfo) :
  "id" ∈ fieldNameList info ->
  exists before after,
    fieldNameList info = (before ++ "id" :: after)%list /\
    ("id" ∉ before) /\
    columns info false = (before ++ after)%list /\
    insertInto info false = _insertInto info "INSERT" (before ++ after)%list /\
    replaceInto info false = _insertInto info "REPLACE" (before ++ after)%list.
Proof.
  intros Hin.
  destruct (removeAt_indexOf_split _ _ Hin) as (l1 & l2 & Hl & Hout & Hrem).
  exists l1, l2.
  assert (columns info false = (l1 ++ l2)%list) as Hcols
    by now rewrite (columns_without_id info Hin).
  repeat split; try assumption.
  - now rewrite insertInto_columns, Hcols.
  - now rewrite replaceInto_columns, Hcols.
Qed.

Lemma columns_drop_first_id_witness :
  exists before after,
    fieldNameList Twice = (before ++ "id" :: after)%list /\
    columns Twice false = (before ++ after)%list /\
    insertInto Twice false = "INSERT INTO Twice (x,id) values (:x,:id);".
Proof.
  assert ("id" ∈ fieldNameList Twice) as Hin by (apply elem_of_cons; now left).
  destruct (columns_drop_first_id Twice Hin) as (l1 & l2 & Hl & _ & Hc & _).
  exists l1, l2. split; [exact Hl |]. split; [exact Hc | vm_compute; reflexivity].
Defined.

(** X4.  For a model without an [id] field the flag makes no difference:
    [insertInto] and [replaceInto] name all the fields either way. *)
Theorem insert_without_id_field (info : DQModelMetaInfo) (with_id : bool) :
  "id" ∉ fieldNameList info ->
  columns info with_id = fieldNameList info /\
  insertInto info with_id = insertInto info true /\
  replaceInto info with_id = replaceInto info true.
Proof.
  intros Hout.
  assert (columns info with_id = fieldNameList info) as Hcols.
  { unfold columns. destruct with_id; cbn [negb]; [reflexivity |].
    now rewrite (indexOf_absent _ _ Hout). }
  split; [exact Hcols |].
  rewrite !insertInto_columns, !replaceInto_columns, Hcols, columns_with_id. auto.
Qed.

Lemma insert_without_id_field_witness :
  insertInto Tag false = insertInto Tag true.
Proof.
  apply (insert_without_id_field Tag false).
  intros [Heq | Hin%not_elem_of_nil]%elem_of_cons; [discriminate | exact Hin].
Defined.

(** X5.  When no column is left -- the model has no field, or its only
    field is [id] and the id is left out -- [insertInto] and
    [replaceInto] still return a text, with empty lists of columns and
    placeholders. *)
Theorem insert_no_column (info : DQModelMetaInfo) (with_id : bool) :
  fieldNameList info = [] \/ (fieldNameList info = ["id"] /\ with_id = false) ->
  insertInto info with_id = "INSERT INTO " +:+ name info +:+ " () values ();" /\
  replaceInto info with_id = "REPLACE INTO " +:+ name info +:+ " () values ();".
Proof.
  intros Hcase.
  assert (columns info with_id = []) as Hcols.
  { unfold columns. destruct Hcase as [-> | [-> ->]]; [now destruct with_id | reflexivity]. }
  rewrite insertInto_columns, replaceInto_columns, Hcols, !_insertInto_text.
  split; reflexivity.
Qed.

Lemma insert_no_column_witness :
  insertInto Bare false = "INSERT INTO Bare () values ();".
Proof. apply (insert_no_column Bare false). right. split; reflexivity. Defined.

End InsertFacts.

(** * More on the connection registry *)

Ltac store_step := cbn -[lookup insert delete fresh dom]; rewrite ?lookup_insert_eq.

Section RegistryFacts.
Context {E : Type} `{DQEngine E}.
Implicit Types (w : World (E := E)) (this : DQConnection) (l : loc) (m : metaptr).

(** *** Looking up the default connection *)

Lemma warning_text (n : string) :
  QString.arg "Model %1 is not added to any connection yet" n
    = "Model " +:+ n +:+ " is not added to any connection yet".
Proof. StatementFacts.arg_text. reflexivity. Qed.


Lemma defaultConnection_miss m (info : DQModelMetaInfo) w :
  m <> 0%N -> mapping w !! m = None -> metaInfos w !! m = Some info ->
  defaultConnection m w
    = Ok (None,
          add_warning ("Model " +:+ name info +:+ " is not added to any connection yet") w).
Proof.
  intros Hm Hnone Hinfo.
  unfold defaultConnection, bind, mapping_contains, metaInfo_name, qWarning, ret.
  destruct (N.eqb_spec m 0) as [-> | _]; [congruence |].
  rewrite Hnone, bool_decide_eq_false_2 by (intros [? [=]]).
  rewrite Hinfo, warning_text. reflexivity.
Qed.

(** X6.  For a non-null model with an entry in the mapping,
    [defaultConnection] returns the connection of the entry and leaves
    the whole state as it is: nothing is warned. *)
Theorem defaultConnection_found m (c : DQConnection) w :
  m <> 0%N -> mapping w !! m = Some c ->
  defaultConnection m w = Ok (c, w).
Proof.
  intros Hm Hc. unfold defaultConnection.
  destruct (N.eqb_spec m 0) as [-> | _]; [congruence |].
  assert (mapping_contains m w = Ok (true, w)) as Hfound
    by (unfold mapping_contains; now rewrite Hc, bool_decide_eq_true_2 by eauto).
  rewrite (bind_run _ _ _ _ _ Hfound). unfold mapping_index. now rewrite Hc.
Qed.

(** X7.  For a non-null model without an entry, [defaultConnection]
    returns a null connection and adds one warning that names the model;
    the mapping itself gets no entry and the rest of the state stays. *)
Theorem defaultConnection_missing m (info : DQModelMetaInfo) w :
  m <> 0%N -> mapping w !! m = None -> metaInfos w !! m = Some info ->
  defaultConnection m w
    = Ok (None,
          add_warning ("Model " +:+ name info +:+ " is not added to any connection yet") w)
  /\ mapping (add_warning
                ("Model " +:+ name info +:+ " is not added to any connection yet") w)
     = mapping w.
Proof.
  intros Hm Hnone Hinfo. split; [| reflexivity].
  now apply defaultConnection_miss.
Qed.


(** X9.  Whatever [addModel] returns, the entries of all other models
    are as before; and when it returns false, or the model had an entry
    already, the mapping as a whole is as before. *)
Theorem addModel_frame this m w (res : bool) this' w' :
  addModel this m w = Ok ((res, this'), w') ->
  (forall m', m' <> m -> mapping w' !! m' = mapping w !! m') /\
  (res = false -> mapping w' = mapping w) /\
  (is_Some (mapping w !! m) -> mapping w' = mapping w).
Proof.
  intros Hadd. rewrite (addModel_mapping _ _ _ _ _ _ Hadd).
  split; [| split].
  - intros m' Hne. destruct (res && _); [now apply lookup_insert_ne | reflexivity].
  - intros ->. reflexivity.
  - intros Hsome. rewrite (bool_decide_eq_true_2 _ Hsome), andb_false_r. reflexivity.
Qed.

(** *** Preparing the state *)

Lemma PREPARE_PRIV_prepared l (p : DQConnectionPriv) w :
  privs w !! l = Some p -> is_Some (engine_ p) ->
  PREPARE_PRIV (Some l) w = Ok (Some l, w).
Proof.
  intros Hp [e He]. unfold PREPARE_PRIV, bind, deref, ret. cbn [isNull].
  now rewrite Hp, He.
Qed.

Lemma PREPARE_PRIV_no_engine l (p : DQConnectionPriv) w :
  privs w !! l = Some p -> engine_ p = None ->
  let e := fresh (dom (engines w)) in
  PREPARE_PRIV (Some l) w
    = Ok (Some l, set_privs (insert l (set_engine_ (Some e) p))
                    (set_engines (insert e DQSqliteEngine_new) w)).
Proof.
  intros Hp Hnone e.
  unfold PREPARE_PRIV, setEngine, isOpen, mutex_lock, mutex_unlock, bind, new_engine,
    ret, deref, update.
  repeat progress (store_step; rewrite ?Hp, ?Hnone).
  reflexivity.
Qed.

Lemma PREPARE_PRIV_null_world w :
  let l := fresh (dom (privs w)) in
  let e := fresh (dom (engines w)) in
  exists w',
    PREPARE_PRIV None w = Ok (Some l, w') /\
    privs w' = <[l := DQConnectionPriv_of (Some e)]> (privs w) /\
    engines w' = <[e := DQSqliteEngine_new]> (engines w) /\
    mapping w' = mapping w /\ metaInfos w' = metaInfos w /\ warnings w' = warnings w.
Proof.
  intros l e.
  unfold PREPARE_PRIV, setEngine, isOpen, mutex_lock, mutex_unlock, bind, new_priv,
    new_engine, ret, deref, update.
  store_step. fold l. store_step. fold e. do 4 store_step.
  eexists. split; [reflexivity |]. store_step.
  split; [now rewrite insert_insert_eq | auto].
Qed.

(** X10.  On a null handle the macro allocates: the handle comes back
    with a private state in a cell that was not in use, holding a default
    engine in a cell that was not in use.  Every other private state and
    engine, the mapping and the warnings are as before. *)
Theorem PREPARE_PRIV_null_fresh w :
  exists l e w',
    PREPARE_PRIV None w = Ok (Some l, w') /\
    privs w !! l = None /\ engines w !! e = None /\
    privs w' !! l = Some (DQConnectionPriv_of (Some e)) /\
    engines w' !! e = Some DQSqliteEngine_new /\
    (forall l', l' <> l -> privs w' !! l' = privs w !! l') /\
    (forall e', e' <> e -> engines w' !! e' = engines w !! e') /\
    mapping w' = mapping w /\ warnings w' = warnings w.
Proof.
  destruct (PREPARE_PRIV_null_world w) as (w' & Hrun & Hp & He & Hm & _ & Hw).
  exists (fresh (dom (privs w))), (fresh (dom (engines w))), w'.
  split; [exact Hrun |].
  split; [apply not_elem_of_dom, is_fresh |].
  split; [apply not_elem_of_dom, is_fresh |].
  rewrite Hp, He.
  split; [apply lookup_insert_eq |]. split; [apply lookup_insert_eq |].
  split; [intros l' Hne; now apply lookup_insert_ne |].
  split; [intros e' Hne; now apply lookup_insert_ne |]. auto.
Qed.

Lemma PREPARE_PRIV_cases this w :
  this = None \/ (exists l, this = Some l /\ is_Some (privs w !! l)) ->
  exists l (p : DQConnectionPriv) e w',
    PREPARE_PRIV this w = Ok (Some l, w') /\
    privs w' !! l = Some p /\ engine_ p = Some e /\
    (this <> None -> this = Some l) /\
    mapping w' = mapping w.
Proof.
  intros [-> | (l & -> & [p Hp])].
  - destruct (PREPARE_PRIV_null_world w) as (w' & Hrun & Hp & _ & Hm & _).
    eexists _, _, _, w'. split; [exact Hrun |].
    split; [rewrite Hp; apply lookup_insert_eq |].
    split; [reflexivity |]. split; [congruence | exact Hm].
  - destruct (engine_ p) as [e |] eqn:He.
    + exists l, p, e, w.
      assert (PREPARE_PRIV (Some l) w = Ok (Some l, w)) as Hrun
        by (apply (PREPARE_PRIV_prepared _ _ _ Hp); rewrite He; eauto).
      auto 6.
    + pose proof (PREPARE_PRIV_no_engine l p w Hp He) as Hrun. cbv zeta in Hrun.
      eexists l, _, _, _. split; [exact Hrun |].
      split; [apply lookup_insert_eq |]. repeat split.
Qed.

(** X11.  On any handle that is null or names a private state, the macro
    succeeds and leaves a handle whose state holds an engine pointer; a
    non-null handle comes back unchanged, the mapping is untouched, and
    running the macro again changes nothing. *)
Theorem PREPARE_PRIV_ensures this w :
  this = None \/ (exists l, this = Some l /\ is_Some (privs w !! l)) ->
  exists l (p : DQConnectionPriv) e w',
    PREPARE_PRIV this w = Ok (Some l, w') /\
    privs w' !! l = Some p /\ engine_ p = Some e /\
    (this <> None -> this = Some l) /\
    mapping w' = mapping w /\
    PREPARE_PRIV (Some l) w' = Ok (Some l, w').
Proof.
  intros Hvalid.
  destruct (PREPARE_PRIV_cases this w Hvalid) as (l & p & e & w' & Hrun & Hp & He & Hrest).
  exists l, p, e, w'. split; [exact Hrun |]. split; [exact Hp |]. split; [exact He |].
  split; [apply Hrest |]. split; [apply Hrest |].
  apply (PREPARE_PRIV_prepared l p w' Hp). rewrite He. eauto.
Qed.


(** *** Opening *)


Lemma open_closed_database this (db : QSqlDatabase) w :
  db_isOpen db = false -> open this db w = Fault AssertionFailed.
Proof. intros Hdb. unfold open, bind, raise. now rewrite Hdb. Qed.

(** *** Replacing and reading the engine *)

Lemma open_cases this w :
  isOpen this w = Ok (true, w) <->
  exists l (p : DQConnectionPriv) e eo,
    this = Some l /\ privs w !! l = Some p /\ engine_ p = Some e /\
    engines w !! e = Some eo /\ eng_isOpen eo = true.
Proof.
  unfold isOpen, bind, deref, engine_get, ret. split.
  - destruct this as [l |]; [| discriminate]. cbn [isNull].
    destruct (privs w !! l) as [p |] eqn:Hp; [| discriminate].
    destruct (engine_ p) as [e |] eqn:He; [| discriminate].
    destruct (engines w !! e) as [eo |] eqn:Heo; [| discriminate].
    intros [= Hopen]. exists l, p, e, eo. auto.
  - intros (l & p & e & eo & -> & Hp & He & Heo & Hopen).
    cbn [isNull]. now rewrite Hp, He, Heo, Hopen.
Qed.

Lemma engine_installed l (p : DQConnectionPriv) w :
  privs w !! l = Some p -> engine (Some l) w = Ok (engine_ p, w).
Proof.
  intros Hp. unfold engine, mutex_lock, mutex_unlock, bind, deref, ret.
  now rewrite !Hp.
Qed.

(** X13.  On a connection with a private state that is not open,
    [setEngine] returns true; the engine that was installed is destroyed,
    every other engine is as before, the new pointer is installed (and is
    what [engine] then returns), and the SQL sub-object, the last query
    and the mapping are untouched.  On an open connection it returns
    false and changes nothing. *)
Theorem setEngine_installs l (p : DQConnectionPriv) (newEngine : option loc) w :
  privs w !! l = Some p ->
  (isOpen (Some l) w = Ok (true, w) ->
   setEngine (Some l) newEngine w = Ok (false, w)) /\
  (isOpen (Some l) w = Ok (false, w) ->
   exists w',
     setEngine (Some l) newEngine w = Ok (true, w') /\
     engine (Some l) w' = Ok (newEngine, w') /\
     privs w' !! l = Some (set_engine_ newEngine p) /\
     (forall old, engine_ p = Some old -> engines w' !! old = None) /\
     (forall e, engine_ p <> Some e -> engines w' !! e = engines w !! e) /\
     mapping w' = mapping w).
Proof.
  intros Hp. split; [apply setEngine_open |]. intros Hclosed.
  destruct (setEngine_not_open l p newEngine w Hp Hclosed) as (w' & Hrun & Hps & Hes & Hm).
  assert (privs w' !! l = Some (set_engine_ newEngine p)) as Hl
    by (rewrite Hps; apply lookup_insert_eq).
  exists w'. split; [exact Hrun |].
  split; [exact (engine_installed l _ w' Hl) |]. split; [exact Hl |].
  split; [| split; [| exact Hm]].
  - intros old Hold. rewrite Hes, Hold. apply lookup_delete_eq.
  - intros e Hne. rewrite Hes. destruct (engine_ p) as [old |]; [| reflexivity].
    apply lookup_delete_ne. congruence.
Qed.

(** X14.  [setEngine] does not compare the new pointer with the installed
    one.  Handed the engine the connection already holds (while not
    open), it destroys that engine and installs the pointer again: the
    call returns true, and the next [isOpen] uses the destroyed engine. *)
Theorem setEngine_same_engine l (p : DQConnectionPriv) e (eo : E) w :
  privs w !! l = Some p -> engine_ p = Some e ->
  engines w !! e = Some eo -> eng_isOpen eo = false ->
  exists w',
    setEngine (Some l) (Some e) w = Ok (true, w') /\
    engine (Some l) w' = Ok (Some e, w') /\
    engines w' !! e = None /\
    isOpen (Some l) w' = Fault DanglingPointer.
Proof.
  intros Hp He Heo Hclosed.
  assert (isOpen (Some l) w = Ok (false, w)) as Hnot.
  { apply not_open_cases. right. exists l, p. split; [reflexivity |]. split; [exact Hp |].
    right. exists e, eo. auto. }
  destruct (setEngine_not_open l p (Some e) w Hp Hnot) as (w' & Hrun & Hps & Hes & _).
  rewrite He in Hes.
  assert (privs w' !! l = Some (set_engine_ (Some e) p)) as Hl
    by (rewrite Hps; apply lookup_insert_eq).
  assert (engines w' !! e = None) as Hgone by (rewrite Hes; apply lookup_delete_eq).
  exists w'. split; [exact Hrun |].
  split; [exact (engine_installed l _ w' Hl) |]. split; [exact Hgone |].
  unfold isOpen, bind, deref, engine_get. cbn [isNull]. rewrite Hl. cbn. now rewrite Hgone.
Qed.

(** *** The last query of an open connection *)

(** X15.  On an open connection [setLastQuery] stores the query and
    [lastQuery] then returns it; the connection is still open, a later
    [setLastQuery] replaces the stored query, and engines and mapping
    are untouched. *)
Theorem lastQuery_round_trip this (query later : QSqlQuery) w :
  isOpen this w = Ok (true, w) ->
  exists w1 w2,
    setLastQuery this query w = Ok (tt, w1) /\
    lastQuery this w1 = Ok (query, w1) /\
    isOpen this w1 = Ok (true, w1) /\
    engines w1 = engines w /\ mapping w1 = mapping w /\
    setLastQuery this later w1 = Ok (tt, w2) /\
    lastQuery this w2 = Ok (later, w2).
Proof.
  intros Hopen.
  assert (forall (q : QSqlQuery) w0, isOpen this w0 = Ok (true, w0) ->
            exists w1, setLastQuery this q w0 = Ok (tt, w1) /\
                       lastQuery this w1 = Ok (q, w1) /\
                       isOpen this w1 = Ok (true, w1) /\
                       engines w1 = engines w0 /\ mapping w1 = mapping w0) as Hstep.
  { clear. intros q w0 Hopen.
    pose proof Hopen as (l & p & e & eo & -> & Hp & He & Heo & Ho)%open_cases.
    set (w1 := set_privs (insert l (set_lastQuery_ q p)) w0).
    assert (privs w1 !! l = Some (set_lastQuery_ q p)) as Hl by apply lookup_insert_eq.
    assert (isOpen (Some l) w1 = Ok (true, w1)) as Hopen1.
    { apply open_cases. exists l, (set_lastQuery_ q p), e, eo. auto 6. }
    exists w1. split; [| split; [| auto]].
    - unfold setLastQuery. rewrite (bind_run _ _ _ _ _ Hopen). cbn [negb].
      unfold mutex_lock, mutex_unlock, bind, deref, update, ret.
      rewrite !Hp. fold w1. now rewrite Hl.
    - unfold lastQuery. rewrite (bind_run _ _ _ _ _ Hopen1). cbn [negb].
      unfold mutex_lock, mutex_unlock, bind, deref, ret. now rewrite !Hl. }
  destruct (Hstep query w Hopen) as (w1 & Hset & Hget & Hopen1 & He & Hm).
  destruct (Hstep later w1 Hopen1) as (w2 & Hset2 & Hget2 & _).
  exists w1, w2. auto 8.
Qed.

(** *** Closing *)

Lemma close_effect l (p : DQConnectionPriv) e (eo : E) w :
  privs w !! l = Some p -> engine_ p = Some e -> engines w !! e = Some eo ->
  exists w',
    close (Some l) w = Ok (tt, w') /\
    privs w' = <[l := set_database QSqlDatabase_default p]> (privs w) /\
    engines w' = <[e := eng_close eo]> (engines w) /\
    metaInfos w' = metaInfos w /\ warnings w' = warnings w /\
    forall m, mapping w' !! m
              = if bool_decide (m ∈ eng_modelList (eng_close eo)) then None
                else mapping w !! m.
Proof.
  intros Hp He Heo. unfold close. cbn [isNull].
  unfold bind at 1. unfold update at 1. rewrite Hp.
  unfold bind at 1. unfold deref at 1. store_step.
  unfold bind at 1. unfold engine_call at 1. store_step. rewrite He, Heo. store_step.
  unfold bind at 1. unfold deref at 1. store_step.
  unfold bind at 1. unfold engine_get at 1. store_step. rewrite He. store_step.
  match goal with
  | |- context [foreach ?ms ?body ?w0] =>
      destruct (close_loop ms w0) as (w' & Hrun & Hp' & He' & Hi' & Hw' & Hm')
  end.
  exists w'. auto 7.
Qed.

(** X16.  After [close] on a connection with a live engine, every
    non-null model the closed engine reports as bound has no default:
    [defaultConnection] returns a null connection and adds the warning
    that names the model. *)
Theorem close_then_defaultConnection l (p : DQConnectionPriv) e (eo : E) w m
    (info : DQModelMetaInfo) :
  privs w !! l = Some p -> engine_ p = Some e -> engines w !! e = Some eo ->
  m ∈ eng_modelList (eng_close eo) -> m <> 0%N -> metaInfos w !! m = Some info ->
  exists w',
    close (Some l) w = Ok (tt, w') /\
    defaultConnection m w'
      = Ok (None,
            add_warning
              ("Model " +:+ name info +:+ " is not added to any connection yet") w').
Proof.
  intros Hp He Heo Hin Hm Hinfo.
  destruct (close_effect l p e eo w Hp He Heo) as (w' & Hrun & _ & _ & Hi & _ & Hmap).
  exists w'. split; [exact Hrun |].
  apply defaultConnection_miss; [exact Hm | | congruence].
  rewrite Hmap. now rewrite bool_decide_eq_true_2.
Qed.

(** X17.  [close] checks the state but not the engine.  After a
    successful [setEngine] with a null pointer the connection holds no
    engine: it still counts as not open, but [close] on it dereferences
    the null engine pointer. *)
Theorem close_without_engine l (p : DQConnectionPriv) w :
  privs w !! l = Some p -> isOpen (Some l) w = Ok (false, w) ->
  exists w',
    setEngine (Some l) None w = Ok (true, w') /\
    isOpen (Some l) w' = Ok (false, w') /\
    close (Some l) w' = Fault NullPointer.
Proof.
  intros Hp Hclosed.
  destruct (setEngine_not_open l p None w Hp Hclosed) as (w' & Hrun & Hps & _).
  assert (privs w' !! l = Some (set_engine_ None p)) as Hl
    by (rewrite Hps; apply lookup_insert_eq).
  exists w'. split; [exact Hrun |]. split.
  - apply not_open_cases. right. exists l, (set_engine_ None p). auto.
  - unfold close, bind, update, deref, engine_call. cbn [isNull].
    repeat progress (rewrite ?Hl; store_step). reflexivity.
Qed.

End RegistryFacts.

(** * More of the registry on concrete states *)

Module RegistryCases.
Import ConnectionExamples.

Lemma defaultConnection_found_witness : defaultConnection User w_A = Ok (A, w_A).
Proof.
  apply (defaultConnection_found User A w_A); [discriminate | vm_compute; reflexivity].
Defined.

Lemma defaultConnection_missing_witness :
  defaultConnection User start
    = Ok (None, add_warning "Model User is not added to any connection yet" start).
Proof.
  apply (defaultConnection_missing User StatementExamples.User start);
    [discriminate | reflexivity | reflexivity].
Defined.

Lemma addModel_frame_witness : mapping w_AB = mapping w_A.
Proof.
  destruct (addModel_frame None User w_A true B w_AB ConnectionCases.B_bound)
    as (_ & _ & Hkept).
  apply Hkept. exists A. vm_compute. reflexivity.
Defined.

Lemma PREPARE_PRIV_ensures_witness :
  exists l p e w',
    PREPARE_PRIV None start = Ok (Some l, w') /\
    privs w' !! l = Some p /\ engine_ p = Some e.
Proof.
  destruct (PREPARE_PRIV_ensures None start (or_introl eq_refl))
    as (l & p & e & w' & Hrun & Hp & He & _).
  exists l, p, e, w'. auto.
Defined.



Lemma setEngine_installs_witness :
  exists w',
    setEngine A None w_A = Ok (true, w') /\ engines w' !! 1%positive = None.
Proof.
  destruct (setEngine_installs 1%positive priv1 None w_A) as [_ Hclosed];
    [vm_compute; reflexivity |].
  destruct Hclosed as (w' & Hrun & _ & _ & Hold & _); [vm_compute; reflexivity |].
  exists w'. split; [exact Hrun | apply Hold; reflexivity].
Defined.

Lemma setEngine_same_engine_witness :
  exists w',
    setEngine A (Some 1%positive) w_A = Ok (true, w') /\
    isOpen A w' = Fault DanglingPointer.
Proof.
  destruct (setEngine_same_engine 1%positive priv1 1%positive boundEngine w_A)
    as (w' & Hrun & _ & _ & Hfault);
    [vm_compute; reflexivity | reflexivity | vm_compute; reflexivity | reflexivity |].
  exists w'. exact (conj Hrun Hfault).
Defined.

Lemma lastQuery_round_trip_witness :
  exists w1,
    setLastQuery A someQuery w_opened = Ok (tt, w1) /\
    lastQuery A w1 = Ok (someQuery, w1).
Proof.
  destruct (lastQuery_round_trip A someQuery QSqlQuery_default w_opened)
    as (w1 & _ & Hset & Hget & _); [vm_compute; reflexivity |].
  exists w1. exact (conj Hset Hget).
Defined.

Lemma close_then_defaultConnection_witness :
  exists w',
    close B w_AB = Ok (tt, w') /\
    defaultConnection User w'
      = Ok (None, add_warning "Model User is not added to any connection yet" w').
Proof.
  apply (close_then_defaultConnection 2%positive (DQConnectionPriv_of (Some 2%positive))
           2%positive boundEngine w_AB User StatementExamples.User);
    [vm_compute; reflexivity | reflexivity | vm_compute; reflexivity
    | apply list_elem_of_here | discriminate | reflexivity].
Defined.

Lemma close_without_engine_witness :
  exists w',
    setEngine A None w_A = Ok (true, w') /\ close A w' = Fault NullPointer.
Proof.
  destruct (close_without_engine 1%positive priv1 w_A) as (w' & Hrun & _ & Hfault);
    [vm_compute; reflexivity | vm_compute; reflexivity |].
  exists w'. exact (conj Hrun Hfault).
Defined.

End RegistryCases.
